(** * A shallow embedding of the change-detection core of [monitor.py]

    The Python program keeps one CSV snapshot per award, canonicalises the
    rows it scrapes, keys them, diffs them against the snapshot and renders
    the differences.  This file embeds [normalize_space], [normalize_amount],
    [canonicalize_row], [detect_changes] (with its inner [row_key]),
    [format_change_lines] and [write_csv_atomic].

    Modelling conventions.
    - A Python [str] is a Rocq [string]; each [ascii] character stands for
      the Unicode code point of the same number (U+0000 .. U+00FF), so the
      whitespace and digit classes below are those of Python restricted to
      Latin-1.
    - A Python [dict] is an association list in insertion order whose keys
      are pairwise distinct; [dict_set] is [d[k] = v] (update in place when
      the key is present, append otherwise).
    - Python exceptions raised by [list.index] or list subscripts are the
      [None] of an [option]. *)

From Stdlib Require Import List Bool Arith Lia String Ascii Sorting.Permutation
  Sorting.Sorted Structures.OrdersEx Classes.RelationClasses.
From Stdlib Require Import NArith.
Import ListNotations.
Open Scope list_scope.
Open Scope string_scope.
Open Scope nat_scope.

(** ** Characters *)

(** Python's [str.isspace] (also the class [\s] of [re] on [str] patterns)
    on U+0000 .. U+00FF: TAB..CR, U+001C..U+001F, SPACE, NEL, NBSP. *)
Definition is_space (c : ascii) : bool :=
  let n := nat_of_ascii c in
  ((9 <=? n) && (n <=? 13)) || ((28 <=? n) && (n <=? 32)) || (n =? 133) || (n =? 160).

(** The class [\d] on U+0000 .. U+00FF is exactly ['0'..'9']. *)
Definition is_digit (c : ascii) : bool :=
  let n := nat_of_ascii c in (48 <=? n) && (n <=? 57).

Definition sp : ascii := " "%char.
Definition nbsp : ascii := ascii_of_nat 160.

(** [re.sub(r"\s+", " ", s)]: every maximal run of whitespace becomes one
    space.  [in_run] records that the previous character was whitespace. *)
Fixpoint collapse (in_run : bool) (l : list ascii) : list ascii :=
  match l with
  | [] => []
  | c :: l' =>
      if is_space c then
        if in_run then collapse true l' else sp :: collapse true l'
      else c :: collapse false l'
  end.

(** [str.lstrip()] and [str.rstrip()]; [str.strip()] is both. *)
Fixpoint lstrip (l : list ascii) : list ascii :=
  match l with
  | [] => []
  | c :: l' => if is_space c then lstrip l' else l
  end.

Fixpoint rstrip (l : list ascii) : list ascii :=
  match l with
  | [] => []
  | c :: l' =>
      let r := rstrip l' in
      match r with
      | [] => if is_space c then [] else [c]
      | _ => c :: r
      end
  end.

Definition strip (l : list ascii) : list ascii := rstrip (lstrip l).

(** [s.replace("\xa0", " ")] *)
Definition replace_nbsp (l : list ascii) : list ascii :=
  map (fun c => if Ascii.eqb c nbsp then sp else c) l.

(** [normalize_space(s)] for a [str] argument ([s or ""] is [s] then). *)
Definition normalize_space (s : string) : string :=
  string_of_list_ascii
    (strip (collapse false (replace_nbsp (list_ascii_of_string s)))).

(** [normalize_amount(s)] for a [str] argument:
    {v
    s = s.strip()
    neg = s.startswith("-") or ("(" in s and ")" in s)
    digits = re.sub(r"[^\d.]", "", s)
    if digits == "": return "0"
    return f"-{digits}" if neg else digits
    v} *)
Definition is_digit_or_dot (c : ascii) : bool := is_digit c || Ascii.eqb c "."%char.

Definition starts_with_minus (l : list ascii) : bool :=
  match l with
  | c :: _ => Ascii.eqb c "-"%char
  | [] => false
  end.

Definition contains (c : ascii) (l : list ascii) : bool := existsb (Ascii.eqb c) l.

Definition normalize_amount (s : string) : string :=
  let t := strip (list_ascii_of_string s) in
  let neg := starts_with_minus t || (contains "("%char t && contains ")"%char t) in
  let digits := filter is_digit_or_dot t in
  match digits with
  | [] => "0"
  | _ => if neg then string_of_list_ascii ("-"%char :: digits)
         else string_of_list_ascii digits
  end.

(** ** Rows as dictionaries *)

Definition row := list (string * string).

(** [d.get(k)] *)
Fixpoint dict_get {V : Type} (d : list (string * V)) (k : string) : option V :=
  match d with
  | [] => None
  | (k', v) :: d' => if String.eqb k k' then Some v else dict_get d' k
  end.

(** [d.get(k, default)] *)
Definition dict_get_or {V : Type} (d : list (string * V)) (k : string) (dflt : V) : V :=
  match dict_get d k with Some v => v | None => dflt end.

(** [d[k] = v] *)
Fixpoint dict_set {V : Type} (d : list (string * V)) (k : string) (v : V)
  : list (string * V) :=
  match d with
  | [] => [(k, v)]
  | (k', v') :: d' =>
      if String.eqb k k' then (k', v) :: d' else (k', v') :: dict_set d' k v
  end.

Definition dict_keys {V : Type} (d : list (string * V)) : list string := map fst d.

(** [a == b] on two [dict]s of [str], as CPython's [dict_equal] does it:
    equal lengths, and every key of [a] is bound in [b] to an equal value. *)
Definition dict_eqb (a b : row) : bool :=
  (List.length a =? List.length b) &&
  forallb (fun kv => match dict_get b (fst kv) with
                     | Some v => String.eqb (snd kv) v
                     | None => false
                     end) a.

(** [canonicalize_row(row, amount_cols)]:
    {v
    out = {}
    for k, v in row.items():
        vs = normalize_space(str(v))
        if k in amount_cols:
            vs = normalize_amount(vs)
        out[k] = vs
    return out
    v} *)
Definition canon_cell (amount_cols : list string) (k v : string) : string :=
  let vs := normalize_space v in
  if existsb (String.eqb k) amount_cols then normalize_amount vs else vs.

Definition canonicalize_row (amount_cols : list string) (r : row) : row :=
  fold_left (fun out kv => dict_set out (fst kv) (canon_cell amount_cols (fst kv) (snd kv)))
    r [].

(** The default [amount_cols=("Amount",)] used by [detect_changes] and
    [format_change_lines]. *)
Definition amount_cols_default : list string := ["Amount"].

(** ** [json.dumps(r, sort_keys=True, ensure_ascii=False)] on a [dict] of [str] *)

Definition hex_digit (n : nat) : ascii :=
  if n <? 10 then ascii_of_nat (48 + n) else ascii_of_nat (87 + n).

(** The string escapes of the [json] encoder with [ensure_ascii=False]:
    quote, backslash, [\b \f \n \r \t], and [\u00xx] (lower-case hex) for the
    other characters below U+0020; every other character is kept. *)
Definition json_escape_char (c : ascii) : list ascii :=
  let bs := "\"%char in
  match nat_of_ascii c with
  | 34 => [bs; ascii_of_nat 34]
  | 92 => [bs; bs]
  | 8 => [bs; "b"%char]
  | 12 => [bs; "f"%char]
  | 10 => [bs; "n"%char]
  | 13 => [bs; "r"%char]
  | 9 => [bs; "t"%char]
  | n => if n <? 32
         then [bs; "u"%char; "0"%char; "0"%char; hex_digit (n / 16); hex_digit (n mod 16)]
         else [c]
  end.

Definition json_string (s : string) : string :=
  let q := String (ascii_of_nat 34) EmptyString in
  q ++ string_of_list_ascii (flat_map json_escape_char (list_ascii_of_string s)) ++ q.

(** [sorted(d.items())]: keys of a [dict] are distinct, so the items are
    ordered by key, comparing code points lexicographically. *)
Fixpoint insert_item (x : string * string) (l : row) : row :=
  match l with
  | [] => [x]
  | y :: l' =>
      match String_as_OT.compare (fst x) (fst y) with
      | Gt => y :: insert_item x l'
      | _ => x :: l
      end
  end.

Definition sort_items (r : row) : row := fold_right insert_item [] r.

(** Default separators [", "] and [": "]. *)
Definition json_dumps_sorted (r : row) : string :=
  "{" ++ String.concat ", "
           (map (fun kv => json_string (fst kv) ++ ": " ++ json_string (snd kv))
              (sort_items r)) ++ "}".

(** ** [detect_changes] *)

(** The inner [row_key]:
    {v
    v = r.get(key_col, "")
    return v if v else json.dumps(r, sort_keys=True, ensure_ascii=False)
    v} *)
Definition row_key (key_col : string) (r : row) : string :=
  match dict_get_or r key_col "" with
  | EmptyString => json_dumps_sorted r
  | v => v
  end.

(** [{row_key(r): r for r in rows}] *)
Definition build_map (key_col : string) (rows : list row) : list (string * row) :=
  fold_left (fun m r => dict_set m (row_key key_col r) r) rows [].

(** [rows.index(x)]: the first position holding a row equal to [x];
    [None] is the [ValueError]. *)
Fixpoint list_index (x : row) (rows : list row) : option nat :=
  match rows with
  | [] => None
  | r :: rows' =>
      if dict_eqb r x then Some 0
      else match list_index x rows' with Some i => Some (S i) | None => None end
  end.

Notation "'let*' x := c 'in' k" :=
  (match c with Some x => k | None => None end)
  (at level 200, x name, c at level 100, k at level 200).

(** The first loop of [detect_changes]:
    {v
    for k, norm in new_map.items():
        if k not in old_map:
            idx = new_norm.index(norm)
            new_entries.append(new_rows[idx])
    v} *)
Fixpoint collect_new (old_map : list (string * row)) (new_norm new_rows : list row)
    (items : list (string * row)) : option (list row) :=
  match items with
  | [] => Some []
  | (k, norm) :: items' =>
      match dict_get old_map k with
      | Some _ => collect_new old_map new_norm new_rows items'
      | None =>
          let* idx := list_index norm new_norm in
          let* r := nth_error new_rows idx in
          let* rest := collect_new old_map new_norm new_rows items' in
          Some (r :: rest)
      end
  end.

(** The second loop of [detect_changes]:
    {v
    for k, new_norm_row in new_map.items():
        if k in old_map and new_norm_row != old_map[k]:
            old_idx = old_norm.index(old_map[k])
            new_idx = new_norm.index(new_norm_row)
            updated.append((k, old_rows[old_idx], new_rows[new_idx]))
    v} *)
Fixpoint collect_updated (old_map : list (string * row)) (old_norm old_rows : list row)
    (new_norm new_rows : list row) (items : list (string * row))
    : option (list (string * row * row)) :=
  match items with
  | [] => Some []
  | (k, nn) :: items' =>
      match dict_get old_map k with
      | Some om =>
          if negb (dict_eqb nn om) then
            let* old_idx := list_index om old_norm in
            let* new_idx := list_index nn new_norm in
            let* orow := nth_error old_rows old_idx in
            let* nrow := nth_error new_rows new_idx in
            let* rest := collect_updated old_map old_norm old_rows new_norm new_rows items' in
            Some ((k, orow, nrow) :: rest)
          else collect_updated old_map old_norm old_rows new_norm new_rows items'
      | None => collect_updated old_map old_norm old_rows new_norm new_rows items'
      end
  end.

(** [detect_changes(old_rows, new_rows, key_col)]; [None] is an exception. *)
Definition detect_changes (key_col : string) (old_rows new_rows : list row)
    : option (list row * list (string * row * row)) :=
  let old_norm := map (canonicalize_row amount_cols_default) old_rows in
  let new_norm := map (canonicalize_row amount_cols_default) new_rows in
  let old_map := build_map key_col old_norm in
  let new_map := build_map key_col new_norm in
  let* new_entries := collect_new old_map new_norm new_rows new_map in
  let* updated := collect_updated old_map old_norm old_rows new_norm new_rows new_map in
  Some (new_entries, updated).

(** The identity key of a raw row, as [detect_changes] computes it. *)
Definition raw_key (key_col : string) (r : row) : string :=
  row_key key_col (canonicalize_row amount_cols_default r).

(** ** [format_change_lines] *)

(** The columns listed for a new entry, in order. *)
Definition info_cols : list string :=
  ["Action Date"; "Amount"; "Action Type"; "Transaction Description"].

(** One line per new entry:
    {v
    mod = row.get(key_col, "")
    parts.append(f"New entry (Mod #{mod})" if mod else "New entry")
    for col in [...]:
        if row.get(col):
            parts.append(f"{col}: {row[col]}")
    lines.append(" - " + " | ".join(parts))
    v} *)
Definition new_entry_line (key_col : string) (r : row) : string :=
  let md := dict_get_or r key_col "" in
  let head := match md with
              | EmptyString => "New entry"
              | _ => "New entry (Mod #" ++ md ++ ")"
              end in
  let cols := flat_map (fun col => match dict_get r col with
                                   | Some EmptyString | None => []
                                   | Some v => [col ++ ": " ++ v]
                                   end) info_cols in
  " - " ++ String.concat " | " (head :: cols).

(** The columns of [headers] whose canonicalised values differ. *)
Definition changed_cols (headers : list string) (old_r new_r : row) : list string :=
  let old_norm := canonicalize_row amount_cols_default old_r in
  let new_norm := canonicalize_row amount_cols_default new_r in
  filter (fun col => negb (String.eqb (dict_get_or old_norm col "")
                                      (dict_get_or new_norm col ""))) headers.

(** The separator [" → "] (U+2192), as the UTF-8 bytes the digest carries. *)
Definition arrow : string := " → ".

(** At most one line per updated entry; none when no column differs. *)
Definition updated_lines (headers : list string) (key_col : string)
    (u : string * row * row) : list string :=
  let '(key, old_r, new_r) := u in
  match changed_cols headers old_r new_r with
  | [] => []
  | cols =>
      let header := "Updated (Mod #" ++ dict_get_or new_r key_col key ++ "):" in
      let details := map (fun col => col ++ ": " ++ dict_get_or old_r col ""
                                         ++ arrow ++ dict_get_or new_r col "") cols in
      [" - " ++ header ++ " " ++ String.concat "; " details]
  end.

(** [format_change_lines(name, headers, new_entries, updated_entries, key_col)];
    [name] is not used by the body. *)
Definition format_change_lines (name : string) (headers : list string)
    (new_entries : list row) (updated_entries : list (string * row * row))
    (key_col : string) : list string :=
  (map (new_entry_line key_col) new_entries
   ++ flat_map (updated_lines headers key_col) updated_entries)%list.

(** ** Snapshots on disk *)

(** The file system: path to file contents. *)
Definition fs := list (string * string).

Fixpoint dict_del {V : Type} (d : list (string * V)) (k : string) : list (string * V) :=
  match d with
  | [] => []
  | (k', v) :: d' => if String.eqb k k' then d' else (k', v) :: dict_del d' k
  end.

(** Results of file operations: a value, or a raised exception (its message). *)
Inductive outcome (A : Type) : Type :=
| Ok (a : A)
| Raise (msg : string).
Arguments Ok {A} a.
Arguments Raise {A} msg.

(** A state-and-exception monad: an exception keeps the effects done so far. *)
Definition io (A : Type) : Type := fs -> outcome A * fs.

Definition io_ret {A : Type} (a : A) : io A := fun s => (Ok a, s).

Definition io_bind {A B : Type} (m : io A) (k : A -> io B) : io B :=
  fun s => match m s with
           | (Ok a, s') => k a s'
           | (Raise e, s') => (Raise e, s')
           end.

Notation "x <- m ;; k" := (io_bind m (fun x => k)) (at level 61, m at next level, right associativity).
Notation "m ;;; k" := (io_bind m (fun _ => k)) (at level 61, right associativity).

Definition io_raise {A : Type} (e : string) : io A := fun s => (Raise e, s).

(** [open(p, "w")]: create or truncate. *)
Definition open_w (p : string) : io unit := fun s => (Ok tt, dict_set s p "").

(** [f.write(t)] on a file opened for writing (buffers are flushed when the
    [with] block closes the file, also when it is left by an exception). *)
Definition file_write (p t : string) : io unit :=
  fun s => (Ok tt, dict_set s p (dict_get_or s p "" ++ t)).

(** [Path(src).replace(dst)]: an atomic rename. *)
Definition file_replace (src dst : string) : io unit :=
  fun s => match dict_get s src with
           | Some c => (Ok tt, dict_set (dict_del s src) dst c)
           | None => (Raise "FileNotFoundError", s)
           end.

(** [path.with_suffix(path.suffix + ".tmp")]: the file name with [".tmp"]
    appended, in the same directory. *)
Definition tmp_path (p : string) : string := p ++ ".tmp".

(** The [excel] dialect of [csv.writer]: [,] separated, CRLF terminated,
    [QUOTE_MINIMAL] with doubled quotes; a row made of one empty field is
    written as a quoted empty field. *)
Definition dq : ascii := ascii_of_nat 34.

Definition needs_quote (c : ascii) : bool :=
  Ascii.eqb c ","%char || Ascii.eqb c dq || Ascii.eqb c (ascii_of_nat 13)
  || Ascii.eqb c (ascii_of_nat 10).

Definition csv_field (f : string) : string :=
  let l := list_ascii_of_string f in
  if existsb needs_quote l
  then string_of_list_ascii
         (dq :: flat_map (fun c => if Ascii.eqb c dq then [dq; dq] else [c]) l ++ [dq])
  else f.

Definition crlf : string := String (ascii_of_nat 13) (String (ascii_of_nat 10) EmptyString).

Definition csv_line (fields : list string) : string :=
  match fields with
  | [EmptyString] => String dq (String dq crlf)
  | _ => String.concat "," (map csv_field fields) ++ crlf
  end.

(** [DictWriter._dict_to_list] with [extrasaction="raise"], [restval=""]. *)
Definition dict_to_list (fieldnames : list string) (rowdict : row) : outcome (list string) :=
  if existsb (fun k => negb (existsb (String.eqb k) fieldnames)) (dict_keys rowdict)
  then Raise "ValueError: dict contains fields not in fieldnames"
  else Ok (map (fun k => dict_get_or rowdict k "") fieldnames).

(** [writer.writerows(rows)]: the rows are converted and written one by one. *)
Fixpoint writerows (p : string) (fieldnames : list string) (rows : list row) : io unit :=
  match rows with
  | [] => io_ret tt
  | r :: rows' =>
      match dict_to_list fieldnames r with
      | Ok fields => file_write p (csv_line fields) ;;; writerows p fieldnames rows'
      | Raise e => io_raise e
      end
  end.

(** [write_csv_atomic(path, rows)]:
    {v
    if not rows: return
    headers = list(rows[0].keys())
    tmp = path.with_suffix(path.suffix + ".tmp")
    with tmp.open("w", newline="", encoding="utf-8") as f:
        writer = csv.DictWriter(f, fieldnames=headers)
        writer.writeheader()
        writer.writerows(rows)
    tmp.replace(path)
    v} *)
Definition write_csv_atomic (path : string) (rows : list row) : io unit :=
  match rows with
  | [] => io_ret tt
  | r0 :: _ =>
      let headers := dict_keys r0 in
      let tmp := tmp_path path in
      open_w tmp ;;;
      file_write tmp (csv_line headers) ;;;
      writerows tmp headers rows ;;;
      file_replace tmp path
  end.

(** ** Orders of keys *)

(** The keys of [l] in order of first occurrence: the key order of a dict
    filled by [d[k] = ...] for [k] in [l]. *)
Definition first_occ (l : list string) : list string :=
  fold_left (fun acc k => if existsb (String.eqb k) acc then acc else (acc ++ [k])%list) l [].

(** The bootstrap diff as the amended C1 states it, written from its words:
    one entry per distinct identity key of the new rows, in the order the
    keys first occur; for the key [k], the first new row whose canonical
    form equals the canonical form of the last new row with key [k]. *)
Definition last_with_key (key_col : string) (rows : list row) (k : string) : option row :=
  fold_left (fun acc r => if String.eqb (raw_key key_col r) k then Some r else acc) rows None.

Definition bootstrap_entries (key_col : string) (rows : list row) : list row :=
  flat_map (fun k =>
      match last_with_key key_col rows k with
      | Some l =>
          match find (fun r => dict_eqb (canonicalize_row amount_cols_default r)
                                        (canonicalize_row amount_cols_default l)) rows with
          | Some r => [r]
          | None => []
          end
      | None => []
      end)
    (first_occ (map (raw_key key_col) rows)).

(** [subseq l1 l2]: [l1] is [l2] with some elements left out. *)
Inductive subseq {A : Type} : list A -> list A -> Prop :=
| subseq_nil : subseq [] []
| subseq_skip (x : A) (l1 l2 : list A) : subseq l1 l2 -> subseq l1 (x :: l2)
| subseq_take (x : A) (l1 l2 : list A) : subseq l1 l2 -> subseq (x :: l1) (x :: l2).

(** ** Reading snapshots: [read_csv_if_exists]

    {v
    def read_csv_if_exists(path: Path) -> List[Dict[str, str]]:
        if not path.exists() or path.stat().st_size == 0:
            return []
        with path.open("r", newline="", encoding="utf-8") as f:
            reader = csv.DictReader(f)
            return [dict(r) for r in reader]
    v}
    The file is read by the [excel] dialect of [csv.reader] (CPython's
    [_csv.c]: delimiter [,], quotechar [dq], [doublequote], no escape
    character, [strict] off, field size limit 131072), wrapped in
    [csv.DictReader] with [restkey=None] and [restval=None]. *)

Definition LF : ascii := ascii_of_nat 10.
Definition CR : ascii := ascii_of_nat 13.

(** A file opened with [newline=""] yields its lines with their endings
    untranslated; a line ends after [\n], after [\r\n], or after a [\r]
    not followed by [\n]. *)
Fixpoint split_lines_aux (cur : list ascii) (l : list ascii) : list (list ascii) :=
  match l with
  | [] => match cur with [] => [] | _ => [cur] end
  | c :: t =>
      if Ascii.eqb c LF then (cur ++ [c])%list :: split_lines_aux [] t
      else if Ascii.eqb c CR then
        match t with
        | c' :: t' =>
            if Ascii.eqb c' LF then (cur ++ [c; c'])%list :: split_lines_aux [] t'
            else (cur ++ [c])%list :: split_lines_aux [] t
        | [] => [(cur ++ [c])%list]
        end
      else split_lines_aux (cur ++ [c])%list t
  end.

Definition split_lines (l : list ascii) : list (list ascii) := split_lines_aux [] l.

(** The states of the record parser of [_csv.c] that the [excel] dialect
    can reach (the escape states need an [escapechar]). *)
Inductive pstate :=
| START_RECORD | START_FIELD | IN_FIELD | IN_QUOTED_FIELD
| QUOTE_IN_QUOTED_FIELD | EAT_CRNL.

Scheme Equality for pstate.

(** The reader's state: [state], [fields] and the field being read. *)
Record parser := mk_parser { p_state : pstate; p_fields : list string; p_field : list ascii }.

Definition parse_reset : parser := mk_parser START_RECORD [] [].

Definition with_state (p : parser) (st : pstate) : parser :=
  mk_parser st (p_fields p) (p_field p).

Definition parse_save_field (p : parser) : parser :=
  mk_parser (p_state p) (p_fields p ++ [string_of_list_ascii (p_field p)])%list [].

Definition field_limit : N := 131072.

Definition parse_add_char (p : parser) (c : ascii) : outcome parser :=
  if (field_limit <=? N.of_nat (List.length (p_field p)))%N
  then Raise "_csv.Error: field larger than field limit (131072)"
  else Ok (mk_parser (p_state p) (p_fields p) (p_field p ++ [c])%list).

(** The input of [parse_process_char]: a character of a line, or the end
    of the line ([EOL]). *)
Inductive pchar := Chr (c : ascii) | EOL.

Definition is_nl (c : ascii) : bool := Ascii.eqb c LF || Ascii.eqb c CR.

Definition add_then (p : parser) (c : ascii) (st : pstate) : outcome parser :=
  match parse_add_char p c with
  | Ok p' => Ok (with_state p' st)
  | Raise m => Raise m
  end.

(** The [START_FIELD] case (also reached from [START_RECORD], which sets
    the state to [START_FIELD] and falls through). *)
Definition start_field (p : parser) (e : pchar) : outcome parser :=
  match e with
  | EOL => Ok (with_state (parse_save_field p) START_RECORD)
  | Chr c =>
      if is_nl c then Ok (with_state (parse_save_field p) EAT_CRNL)
      else if Ascii.eqb c dq then Ok (with_state p IN_QUOTED_FIELD)
      else if Ascii.eqb c ","%char then Ok (parse_save_field p)
      else add_then p c IN_FIELD
  end.

Definition parse_process_char (p : parser) (e : pchar) : outcome parser :=
  match p_state p with
  | START_RECORD =>
      match e with
      | EOL => Ok p
      | Chr c =>
          if is_nl c then Ok (with_state p EAT_CRNL)
          else start_field (with_state p START_FIELD) e
      end
  | START_FIELD => start_field p e
  | IN_FIELD =>
      match e with
      | EOL => Ok (with_state (parse_save_field p) START_RECORD)
      | Chr c =>
          if is_nl c then Ok (with_state (parse_save_field p) EAT_CRNL)
          else if Ascii.eqb c ","%char then Ok (with_state (parse_save_field p) START_FIELD)
          else parse_add_char p c
      end
  | IN_QUOTED_FIELD =>
      match e with
      | EOL => Ok p
      | Chr c =>
          if Ascii.eqb c dq then Ok (with_state p QUOTE_IN_QUOTED_FIELD)
          else parse_add_char p c
      end
  | QUOTE_IN_QUOTED_FIELD =>
      match e with
      | EOL => Ok (with_state (parse_save_field p) START_RECORD)
      | Chr c =>
          if Ascii.eqb c dq then add_then p c IN_QUOTED_FIELD
          else if Ascii.eqb c ","%char then Ok (with_state (parse_save_field p) START_FIELD)
          else if is_nl c then Ok (with_state (parse_save_field p) EAT_CRNL)
          else add_then p c IN_FIELD
      end
  | EAT_CRNL =>
      match e with
      | EOL => Ok (with_state p START_RECORD)
      | Chr c =>
          if is_nl c then Ok p
          else Raise "_csv.Error: new-line character seen in unquoted field"
      end
  end.

(** One line: its characters, then [EOL]. *)
Fixpoint feed_line (p : parser) (ln : list ascii) : outcome parser :=
  match ln with
  | [] => parse_process_char p EOL
  | c :: t =>
      match parse_process_char p (Chr c) with
      | Ok p' => feed_line p' t
      | Raise m => Raise m
      end
  end.

(** The records [csv.reader] yields, one [Reader_iternext] after the other:
    lines are fed until the parser is back in [START_RECORD]; at the end of
    the input a pending field is saved if it is non-empty or quoted, else
    iteration stops. *)
Fixpoint reader_records (p : parser) (lines : list (list ascii))
  : outcome (list (list string)) :=
  match lines with
  | [] =>
      if negb (Nat.eqb (List.length (p_field p)) 0)
         || pstate_beq (p_state p) IN_QUOTED_FIELD
      then Ok [p_fields (parse_save_field p)]
      else Ok []
  | ln :: rest =>
      match feed_line p ln with
      | Raise m => Raise m
      | Ok p' =>
          if pstate_beq (p_state p') START_RECORD
          then match reader_records parse_reset rest with
               | Ok rs => Ok (p_fields p' :: rs)
               | Raise m => Raise m
               end
          else reader_records p' rest
      end
  end.

(** Values of the dicts [csv.DictReader] builds: strings, [restval=None]
    for missing fields, and the list of surplus fields under
    [restkey=None]. *)
Inductive pyval := PStr (s : string) | PNone | PList (l : list string).

(** A key of such a dict: a column name, or [None] (the [restkey]). *)
Definition pkey := option string.

Definition pkey_eqb (a b : pkey) : bool :=
  match a, b with
  | Some x, Some y => String.eqb x y
  | None, None => true
  | _, _ => false
  end.

Definition prow := list (pkey * pyval).

Fixpoint pdict_set (d : prow) (k : pkey) (v : pyval) : prow :=
  match d with
  | [] => [(k, v)]
  | (k', v') :: d' => if pkey_eqb k k' then (k', v) :: d' else (k', v') :: pdict_set d' k v
  end.

(** [dict(zip(fieldnames, row))]. *)
Definition dict_zip (fieldnames fields : list string) : prow :=
  fold_left (fun d kv => pdict_set d (Some (fst kv)) (PStr (snd kv)))
    (combine fieldnames fields) [].

(** The body of [DictReader.__next__] after a non-empty record is read. *)
Definition dict_reader_row (fieldnames fields : list string) : prow :=
  let d := dict_zip fieldnames fields in
  let lf := List.length fieldnames in
  let lr := List.length fields in
  if lf <? lr then pdict_set d None (PList (skipn lf fields))
  else if lr <? lf then fold_left (fun d k => pdict_set d (Some k) PNone) (skipn lr fieldnames) d
  else d.

(** [list(csv.DictReader(f))]: the first record names the fields, empty
    records are skipped. *)
Definition dict_reader (records : list (list string)) : list prow :=
  match records with
  | [] => []
  | fieldnames :: recs =>
      map (dict_reader_row fieldnames)
        (filter (fun r => match r with [] => false | _ => true end) recs)
  end.

Definition read_csv_if_exists (path : string) : io (list prow) :=
  fun s =>
    match dict_get s path with
    | None | Some EmptyString => (Ok [], s)
    | Some c =>
        (match reader_records parse_reset (split_lines (list_ascii_of_string c)) with
         | Ok recs => Ok (dict_reader recs)
         | Raise m => Raise m
         end, s)
    end.

(** A row as [DictReader] would return it: string keys, string values. *)
Definition py_row (r : row) : prow := map (fun kv => (Some (fst kv), PStr (snd kv))) r.

(** A field the reader accepts: at most [field_limit] characters. *)
Definition fits (l : list ascii) : Prop := (N.of_nat (List.length l) <= field_limit)%N.

(** The lines [DictWriter(f, fieldnames=K).writerows(rows)] writes, when
    every key of every row is in [K]: a missing column is written as the
    [restval] [""]. *)
Definition csv_rows (K : list string) (rows : list row) : string :=
  fold_right (fun r acc => csv_line (map (fun k => dict_get_or r k "") K) ++ acc) "" rows.

(** The dict [DictReader] builds from a line written for [r] under the
    header [K]. *)
Definition padded_row (K : list string) (r : row) : prow :=
  map (fun k => (Some k, PStr (dict_get_or r k ""))) K.

(** ** Sample rows *)

(** The default [key_col] of [detect_changes] and [format_change_lines]. *)
Definition mn : string := "Modification Number".

(** The rows of the column-isolation example of the spec. *)
Definition c4_old : row := [(mn, "1"); ("Amount", "$100.00"); ("Action Type", "X")].
Definition c4_new : row := [(mn, "1"); ("Amount", "100.00"); ("Action Type", "Y")].

(** ** [scrape_table_rows]: the records built from the scraped table

    {v
    records = []
    for r in rows:
        if len(r) < len(headers):
            r = r + [""] * (len(headers) - len(r))
        elif len(r) > len(headers):
            r = r[:len(headers)]
        records.append({h: v for h, v in zip(headers, r)})
    if not records:
        raise RuntimeError("Table has 0 rows after wait; treating as transient load failure.")
    return headers, records
    v} *)
Definition fit_row (n : nat) (r : list string) : list string :=
  if List.length r <? n then (r ++ repeat "" (n - List.length r))%list
  else if n <? List.length r then firstn n r
  else r.

(** [{h: v for h, v in zip(headers, r)}] *)
Definition record_of (headers r : list string) : row :=
  fold_left (fun d hv => dict_set d (fst hv) (snd hv))
    (combine headers (fit_row (List.length headers) r)) [].

Definition build_records (headers : list string) (rows : list (list string)) : list row :=
  map (record_of headers) rows.

Definition scrape_result (headers : list string) (rows : list (list string))
    : outcome (list string * list row) :=
  match build_records headers rows with
  | [] => Raise "RuntimeError: Table has 0 rows after wait; treating as transient load failure."
  | records => Ok (headers, records)
  end.

(** ** [scrape_table_rows]: the retry loop

    {v
    last_err = None
    for attempt in range(1, MAX_SCRAPE_RETRIES + 1):
        try:
            ...
            return headers, records
        except Exception as e:
            last_err = e
            if attempt == MAX_SCRAPE_RETRIES:
                ...
                break
            page.wait_for_timeout(500 * attempt)
            try:
                page.reload(...)
            except Exception:
                pass
    raise last_err if last_err else RuntimeError("Unknown scrape failure")
    v}
    [attempt i] is the outcome of the body of the [try] at attempt [i];
    [backoff i] is [Some e] when [page.wait_for_timeout(500 * i)] raises [e],
    which is not caught and ends the function.  The diagnostics after the
    last attempt and the reload are wrapped in [try ... except: pass] and
    do not change the outcome.  The loop also returns the attempts it made. *)
Definition MAX_SCRAPE_RETRIES : nat := 3.

Fixpoint retry_attempts {A : Type} (attempt : nat -> outcome A) (backoff : nat -> option string)
    (attempts : list nat) (last_err : option string) : outcome A * list nat :=
  match attempts with
  | [] =>
      (match last_err with
       | Some e => Raise e
       | None => Raise "RuntimeError: Unknown scrape failure"
       end, [])
  | a :: rest =>
      match attempt a with
      | Ok x => (Ok x, [a])
      | Raise e =>
          if a =? MAX_SCRAPE_RETRIES then (Raise e, [a])
          else match backoff a with
               | Some e' => (Raise e', [a])
               | None =>
                   let '(o, tried) := retry_attempts attempt backoff rest (Some e) in
                   (o, a :: tried)
               end
      end
  end.

Definition scrape_table_rows {A : Type} (attempt : nat -> outcome A)
    (backoff : nat -> option string) : outcome A * list nat :=
  retry_attempts attempt backoff (seq 1 MAX_SCRAPE_RETRIES) None.

(** ** [expand_read_more_safely]

    {v
    prev_count = None
    for _ in range(max_passes):
        ...
        try:
            count = loc.count()
        except Exception:
            break
        if count == 0 or count == prev_count:
            break
        prev_count = count
        for i in range(min(count, per_pass_cap)):
            ... click ...
        page.wait_for_timeout(250)
    v}
    [count_at i] is what [loc.count()] returns in pass [i] ([None]: it
    raises); the result lists the clicks tried in each pass. *)
Definition count_eqb (prev : option nat) (count : nat) : bool :=
  match prev with Some c => c =? count | None => false end.

Fixpoint expand_passes (count_at : nat -> option nat) (per_pass_cap : nat)
    (passes : list nat) (prev_count : option nat) : list nat :=
  match passes with
  | [] => []
  | i :: rest =>
      match count_at i with
      | None => []
      | Some count =>
          if (count =? 0) || count_eqb prev_count count then []
          else Nat.min count per_pass_cap
               :: expand_passes count_at per_pass_cap rest (Some count)
      end
  end.

Definition expand_read_more_safely (count_at : nat -> option nat)
    (max_passes per_pass_cap : nat) : list nat :=
  expand_passes count_at per_pass_cap (seq 0 max_passes) None.

(** ** Configuration: [EMAIL_RECIPIENTS]

    {v
    [x.strip() for x in os.environ.get("EMAIL_RECIPIENTS", "").split(",") if x.strip()]
    v} *)
Definition strip_str (s : string) : string :=
  string_of_list_ascii (strip (list_ascii_of_string s)).

(** [s.split(sep)] for a one-character separator. *)
Fixpoint split_on_aux (sep : ascii) (cur : list ascii) (l : list ascii) : list string :=
  match l with
  | [] => [string_of_list_ascii cur]
  | c :: t =>
      if Ascii.eqb c sep then string_of_list_ascii cur :: split_on_aux sep [] t
      else split_on_aux sep (cur ++ [c])%list t
  end.

Definition py_split (sep : ascii) (s : string) : list string :=
  split_on_aux sep [] (list_ascii_of_string s).

Definition parse_recipients (env : string) : list string :=
  flat_map (fun x => match strip_str x with EmptyString => [] | y => [y] end)
    (py_split ","%char env).

(** ** [send_email_digest] *)

Definition newline : string := String LF EmptyString.

(** [text_parts]: for each name with lines, the name, its lines and an
    empty line. *)
Definition text_parts (per_name_lines : list (string * list string)) : list string :=
  flat_map (fun nl => match snd nl with
                      | [] => []
                      | lines => fst nl :: (lines ++ [""])%list
                      end) per_name_lines.

(** [ln[3:] if ln.startswith(' - ') else ln] *)
Definition li_text (ln : string) : string :=
  if String.prefix " - " ln then substring 3 (String.length ln - 3) ln else ln.

Definition html_parts (now_iso : string) (per_name_lines : list (string * list string))
    : list string :=
  ("<p>Detected changes at " ++ now_iso ++ ":</p>")
  :: flat_map (fun nl => match snd nl with
                         | [] => []
                         | lines =>
                             ("<p><strong>" ++ fst nl ++ "</strong></p>") :: "<ul>"
                             :: (map (fun ln => ("<li>" ++ li_text ln ++ "</li>")%string) lines
                                 ++ ["</ul>"])%list
                         end) per_name_lines.

(** [text_body = "\n".join(text_parts) if text_parts else "Changes detected."] *)
Definition text_body (per_name_lines : list (string * list string)) : string :=
  match text_parts per_name_lines with
  | [] => "Changes detected."
  | parts => String.concat newline parts
  end.

Record email := mk_email {
  em_subject : string; em_from : string; em_to : string;
  em_recipients : list string; em_text : string; em_html : string }.

(** The message [send_email_digest] hands to the SMTP server ([None]: no
    recipients, nothing is sent); [date_str] and [now_iso] are the clock
    readings. *)
Definition send_email_digest (date_str now_iso subject_prefix sender_name gmail_username : string)
    (recipients : list string) (per_name_lines : list (string * list string)) : option email :=
  match recipients with
  | [] => None
  | _ =>
      Some (mk_email (subject_prefix ++ " USAspending Award Changes — " ++ date_str)
                     (sender_name ++ " <" ++ gmail_username ++ ">")
                     (String.concat ", " recipients) recipients
                     (text_body per_name_lines)
                     (String.concat newline (html_parts now_iso per_name_lines)))
  end.

(** ** [main]

    [as_row] is how [detect_changes] and [format_change_lines] see a dict
    returned by [read_csv_if_exists]; on a dict of strings it is the dict
    itself ([as_row (py_row r) = r]), and the properties below only use it
    there. *)

(** [STATE_DIR / f"{name}.csv"] *)
Definition csv_path (name : string) : string := "state/" ++ name ++ ".csv".

(** One pass of the loop of [main] for the award [name]; [Some lines] is the
    entry it puts in [digest_by_name]. *)
Definition main_award (as_row : prow -> row) (name : string) (headers : list string)
    (new_rows : list row) : io (option (list string)) :=
  let path := csv_path name in
  old_rows <- read_csv_if_exists path ;;
  match old_rows with
  | [] =>
      match new_rows with
      | [] => io_ret None
      | _ => write_csv_atomic path new_rows ;;; io_ret None
      end
  | _ =>
      match new_rows with
      | [] => io_ret None
      | _ =>
          match detect_changes mn (map as_row old_rows) new_rows with
          | None => io_raise "ValueError: list.index(x): x not in list"
          | Some (new_entries, updated_entries) =>
              match new_entries, updated_entries with
              | [], [] => io_ret None
              | _, _ =>
                  let lines := format_change_lines name headers new_entries updated_entries mn in
                  write_csv_atomic path new_rows ;;; io_ret (Some lines)
              end
          end
      end
  end.

(** The loop of [main] over [scraped.items()]: [(name, (headers, rows))]. *)
Fixpoint main_loop (as_row : prow -> row) (scraped : list (string * (list string * list row)))
    (any_changes : bool) (digest : list (string * list string))
    : io (bool * list (string * list string)) :=
  match scraped with
  | [] => io_ret (any_changes, digest)
  | (name, (headers, new_rows)) :: rest =>
      res <- main_award as_row name headers new_rows ;;
      match res with
      | Some lines => main_loop as_row rest true (dict_set digest name lines)
      | None => main_loop as_row rest any_changes digest
      end
  end.

(** What [main] does about e-mail at its end. *)
Inductive mail_action :=
| NoEmail
| DryRunPreview (digest : list (string * list string))
| SendDigest (digest : list (string * list string)).

(** The body of [main] after [scraped = scrape_all_sites()]. *)
Definition main_after_scrape (as_row : prow -> row) (dry_run : bool)
    (scraped : list (string * (list string * list row))) : io mail_action :=
  match scraped with
  | [] => io_ret NoEmail
  | _ =>
      r <- main_loop as_row scraped false [] ;;
      let '(any_changes, digest) := r in
      if any_changes && negb (match digest with [] => true | _ => false end)
      then io_ret (if dry_run then DryRunPreview digest else SendDigest digest)
      else io_ret NoEmail
  end.

(** [main].  [scrape_all_sites] is the browser phase: an [io] action that
    returns the [(name, (headers, rows))] items of the dict it builds, and
    that may itself write files (for a site whose last attempt fails,
    [scrape_table_rows] saves [state/<ts>_fail.png] and
    [state/<ts>_fail.html]). *)
Definition main (scrape_all_sites : io (list (string * (list string * list row))))
    (as_row : prow -> row) (dry_run : bool) : io mail_action :=
  scraped <- scrape_all_sites ;;
  main_after_scrape as_row dry_run scraped.

(** ** Snapshots as [main] leaves them *)

(** Rows [write_csv_atomic] stores and [read_csv_if_exists] gives back
    unchanged: at least one row, the first with at least one key, every row
    with the keys of the first in the same order, and no key or value longer
    than the reader's field limit.  The records of [scrape_table_rows] are
    such rows when a header label exists. *)
Definition snapshot_rows (rows : list row) : Prop :=
  match rows with
  | [] => False
  | r0 :: rest =>
      r0 <> [] /\ NoDup (dict_keys r0)
      /\ (forall r, In r rest -> dict_keys r = dict_keys r0)
      /\ Forall (fun k => fits (list_ascii_of_string k)) (dict_keys r0)
      /\ (forall r, In r rows -> Forall (fun kv => fits (list_ascii_of_string (snd kv))) r)
  end.

(** The contents [write_csv_atomic path rows] gives the file [path]. *)
Definition snapshot_text (rows : list row) : option string :=
  match rows with
  | [] => None
  | r0 :: _ => Some (csv_line (dict_keys r0) ++ csv_rows (dict_keys r0) rows)
  end.

(** An [as_row] for the examples below: it reads a [DictReader] dict of
    strings as the row of strings it holds ([str_row (py_row r) = r]).  A
    [None] key or a value that is not a string reads as the empty string,
    which is not what [str] gives; the examples only read dicts of strings. *)
Definition str_row (p : prow) : row :=
  map (fun kv => (match fst kv with Some k => k | None => EmptyString end,
                  match snd kv with PStr v => v | _ => EmptyString end)) p.

(** * Properties *)

Example normalize_space_ex :
  normalize_space (String "009" ("  a" ++ String nbsp (String "010" " b  "))) = "a b".
Proof. reflexivity. Qed.

Example normalize_amount_ex1 : normalize_amount "$1,234.50" = "1234.50".
Proof. reflexivity. Qed.
Example normalize_amount_ex2 : normalize_amount "($500.00)" = "-500.00".
Proof. reflexivity. Qed.
Example normalize_amount_ex3 : normalize_amount "" = "0".
Proof. reflexivity. Qed.
Example normalize_amount_ex4 : normalize_amount "12 (note)" = "-12".
Proof. reflexivity. Qed.

Example json_ex :
  json_dumps_sorted [("b", "x"); ("a", String (ascii_of_nat 34) "\")] =
  "{" ++ json_string "a" ++ ": " ++ json_string (String (ascii_of_nat 34) "\") ++ ", "
      ++ json_string "b" ++ ": " ++ json_string "x" ++ "}".
Proof. reflexivity. Qed.
Example fmt_ex :
  format_change_lines "X" [mn; "Amount"; "Action Type"] []
    [("1", [(mn, "1"); ("Amount", "$100.00"); ("Action Type", "X")],
           [(mn, "1"); ("Amount", "100.00"); ("Action Type", "Y")])] mn
  = [" - Updated (Mod #1): Action Type: X → Y"].
Proof. reflexivity. Qed.
Example csv_ex :
  fst (write_csv_atomic "s.csv" [[("a", "1")]; [("b", "2")]] [("s.csv", "old")])
  = Raise "ValueError: dict contains fields not in fieldnames".
Proof. reflexivity. Qed.

(** ** Stripping *)

Lemma lstrip_split (l : list ascii) :
  exists pre, l = (pre ++ lstrip l)%list /\ Forall (fun c => is_space c = true) pre.
Proof.
  induction l as [|c l IH]; simpl.
  - exists []; auto.
  - destruct (is_space c) eqn:Hc.
    + destruct IH as [pre [Heq Hall]]. exists (c :: pre); simpl.
      split; [now rewrite <- Heq | now constructor].
    + exists []; auto.
Qed.

Lemma rstrip_split (l : list ascii) :
  exists suf, l = (rstrip l ++ suf)%list /\ Forall (fun c => is_space c = true) suf.
Proof.
  induction l as [|c l IH]; simpl.
  - exists []; auto.
  - destruct IH as [suf [Heq Hall]].
    destruct (rstrip l) as [|d r] eqn:Hr.
    + destruct (is_space c) eqn:Hc.
      * exists (c :: suf); simpl. split; [now rewrite Heq at 1 | now constructor].
      * exists suf; simpl. split; [now rewrite Heq at 1 | exact Hall].
    + exists suf; simpl. split; [now rewrite Heq at 1 | exact Hall].
Qed.

Lemma filter_all_false {A : Type} (p q : A -> bool) (l : list A) :
  (forall c, q c = true -> p c = false) -> Forall (fun c => q c = true) l ->
  filter p l = [].
Proof.
  intros Hpq Hall. induction Hall as [|c l Hc _ IH]; simpl; auto.
  now rewrite (Hpq c Hc).
Qed.

Lemma filter_strip (p : ascii -> bool) (l : list ascii) :
  (forall c, is_space c = true -> p c = false) -> filter p (strip l) = filter p l.
Proof.
  intros Hp. unfold strip.
  destruct (lstrip_split l) as [pre [Hl Hpre]].
  destruct (rstrip_split (lstrip l)) as [suf [Hs Hsuf]].
  rewrite Hl at 2. rewrite Hs at 2.
  rewrite !filter_app, (filter_all_false p is_space pre), (filter_all_false p is_space suf)
    by assumption.
  now rewrite app_nil_r.
Qed.

Lemma existsb_filter {A : Type} (p q : A -> bool) (l : list A) :
  (forall c, p c = true -> q c = true) -> existsb p (filter q l) = existsb p l.
Proof.
  intros H. induction l as [|c l IH]; simpl; auto.
  destruct (q c) eqn:Hq; simpl; rewrite IH; auto.
  destruct (p c) eqn:Hp; auto. rewrite (H c Hp) in Hq. discriminate.
Qed.

Lemma contains_strip (c : ascii) (l : list ascii) :
  is_space c = false -> contains c (strip l) = contains c l.
Proof.
  intros Hc. unfold contains.
  assert (Hp : forall d, is_space d = true -> Ascii.eqb c d = false).
  { intros d Hd. destruct (Ascii.eqb_spec c d); subst; congruence. }
  rewrite <- (existsb_filter (Ascii.eqb c) (Ascii.eqb c) l) by auto.
  rewrite <- (existsb_filter (Ascii.eqb c) (Ascii.eqb c) (strip l)) by auto.
  now rewrite filter_strip.
Qed.

Lemma rstrip_head (c : ascii) (l : list ascii) :
  is_space c = false -> exists r, rstrip (c :: l) = c :: r.
Proof.
  intros Hc. simpl. destruct (rstrip l) as [|d r].
  - rewrite Hc. eauto.
  - eauto.
Qed.

Lemma lstrip_head (l : list ascii) :
  match lstrip l with [] => True | c :: _ => is_space c = false end.
Proof.
  induction l as [|c l IH]; simpl; auto.
  destruct (is_space c) eqn:Hc; auto.
Qed.

Lemma starts_with_minus_strip (l : list ascii) :
  starts_with_minus (strip l) = starts_with_minus (lstrip l).
Proof.
  unfold strip. pose proof (lstrip_head l) as H.
  destruct (lstrip l) as [|c r]; [reflexivity|].
  destruct (rstrip_head c r H) as [r' Hr]. now rewrite Hr.
Qed.

Lemma space_not_digit_or_dot (c : ascii) : is_space c = true -> is_digit_or_dot c = false.
Proof. destruct c as [[] [] [] [] [] [] [] []]; vm_compute; congruence. Qed.

(** ** Whitespace normal form *)

(** [clean in_run l]: [collapse in_run] leaves [l] as it is: every whitespace
    character is a plain space, never after another one (nor first when
    [in_run]). *)
Fixpoint clean (in_run : bool) (l : list ascii) : Prop :=
  match l with
  | [] => True
  | c :: l' => if is_space c then c = sp /\ in_run = false /\ clean true l'
               else clean false l'
  end.

Lemma collapse_clean (b : bool) (l : list ascii) : clean b (collapse b l).
Proof.
  revert b. induction l as [|c l IH]; intros b; simpl; auto.
  destruct (is_space c) eqn:Hc.
  - destruct b; auto. simpl. repeat split; auto.
  - simpl. rewrite Hc. auto.
Qed.

Lemma clean_collapse (b : bool) (l : list ascii) : clean b l -> collapse b l = l.
Proof.
  revert b. induction l as [|c l IH]; intros b H; simpl in *; auto.
  destruct (is_space c) eqn:Hc.
  - destruct H as [-> [-> H]]. now rewrite IH.
  - now rewrite IH.
Qed.

Lemma clean_lstrip (b b' : bool) (l : list ascii) : clean b l -> clean b' (lstrip l).
Proof.
  revert b. induction l as [|c l IH]; intros b H; simpl in *; auto.
  destruct (is_space c) eqn:Hc.
  - destruct H as [_ [_ H]]. eauto.
  - simpl. now rewrite Hc.
Qed.

Lemma clean_rstrip (b : bool) (l : list ascii) : clean b l -> clean b (rstrip l).
Proof.
  revert b. induction l as [|c l IH]; intros b H; simpl in *; auto.
  destruct (is_space c) eqn:Hc.
  - destruct H as [Hsp [Hb H]]. specialize (IH true H).
    destruct (rstrip l); simpl; rewrite ?Hc; auto.
  - specialize (IH false H). destruct (rstrip l); simpl; rewrite ?Hc; auto.
Qed.

Lemma rstrip_idem (l : list ascii) : rstrip (rstrip l) = rstrip l.
Proof.
  induction l as [|c l IH]; simpl; auto.
  destruct (rstrip l) as [|d r] eqn:Hr.
  - destruct (is_space c) eqn:Hc; simpl; auto. now rewrite Hc.
  - change (rstrip (c :: d :: r)) with
      (match rstrip (d :: r) with [] => if is_space c then [] else [c] | _ => c :: rstrip (d :: r) end).
    now rewrite IH.
Qed.

Lemma strip_idem (l : list ascii) : strip (strip l) = strip l.
Proof.
  unfold strip. pose proof (lstrip_head l) as H.
  destruct (lstrip l) as [|c r] eqn:Hl; [reflexivity|].
  destruct (rstrip_head c r H) as [r' Hr]. rewrite Hr. simpl. rewrite H.
  rewrite <- Hr. apply rstrip_idem.
Qed.

Lemma clean_replace_nbsp (b : bool) (l : list ascii) : clean b l -> replace_nbsp l = l.
Proof.
  unfold replace_nbsp. revert b. induction l as [|c l IH]; intros b H; simpl in *; auto.
  destruct (Ascii.eqb_spec c nbsp) as [->|Hn].
  - simpl in H. destruct H as [Habs _]. discriminate.
  - destruct (is_space c); [destruct H as [_ [_ H]] | ]; f_equal; eauto.
Qed.

Lemma normalize_space_idem (s : string) : normalize_space (normalize_space s) = normalize_space s.
Proof.
  unfold normalize_space at 1 2. rewrite list_ascii_of_string_of_list_ascii.
  set (m := strip (collapse false (replace_nbsp (list_ascii_of_string s)))).
  assert (Hm : clean false m).
  { unfold m, strip. apply clean_rstrip, (clean_lstrip false).
    apply collapse_clean. }
  rewrite (clean_replace_nbsp false m Hm), (clean_collapse false m Hm).
  unfold m. now rewrite strip_idem.
Qed.

(** ** Amounts are in normal form *)

Definition no_space (l : list ascii) : Prop := Forall (fun c => is_space c = false) l.

Lemma no_space_clean (b : bool) (l : list ascii) : no_space l -> clean b l.
Proof.
  intros H. revert b. induction H as [|c l Hc _ IH]; intros b; simpl; auto.
  now rewrite Hc.
Qed.

Lemma no_space_strip (l : list ascii) : no_space l -> strip l = l.
Proof.
  intros H. unfold strip.
  assert (Hl : lstrip l = l) by (destruct H; simpl; auto; now rewrite H).
  rewrite Hl. clear Hl. induction H as [|c l Hc _ IH]; simpl; auto.
  rewrite IH. destruct l; auto. now rewrite Hc.
Qed.

Lemma normalize_space_no_space (l : list ascii) :
  no_space l -> normalize_space (string_of_list_ascii l) = string_of_list_ascii l.
Proof.
  intros H. unfold normalize_space. rewrite list_ascii_of_string_of_list_ascii.
  pose proof (no_space_clean false l H) as Hc.
  now rewrite (clean_replace_nbsp false l Hc), (clean_collapse false l Hc), no_space_strip.
Qed.

Lemma digits_no_space (d : list ascii) :
  Forall (fun c => is_digit_or_dot c = true) d -> no_space d.
Proof.
  intros H. unfold no_space. eapply Forall_impl; [|exact H].
  intros c Hc. cbv beta in Hc |- *. destruct (is_space c) eqn:Hs; auto.
  rewrite (space_not_digit_or_dot c Hs) in Hc. discriminate.
Qed.

Lemma filter_forall_id {A : Type} (p : A -> bool) (l : list A) :
  Forall (fun c => p c = true) l -> filter p l = l.
Proof. intros H. induction H as [|c l Hc _ IH]; simpl; auto. now rewrite Hc, IH. Qed.

Lemma existsb_digits (c : ascii) (d : list ascii) :
  is_digit_or_dot c = false -> Forall (fun x => is_digit_or_dot x = true) d ->
  contains c d = false.
Proof.
  intros Hc H. unfold contains. induction H as [|x d Hx _ IH]; simpl; auto.
  rewrite IH. destruct (Ascii.eqb_spec c x); subst; [congruence|reflexivity].
Qed.

(** The result of [normalize_amount] is ["0"], a run of digits and dots, or a
    minus sign followed by one. *)
Lemma normalize_amount_shape (s : string) :
  normalize_amount s = "0" \/
  exists d, d <> [] /\ Forall (fun c => is_digit_or_dot c = true) d /\
    (normalize_amount s = string_of_list_ascii d \/
     normalize_amount s = string_of_list_ascii ("-"%char :: d)).
Proof.
  unfold normalize_amount.
  set (t := strip (list_ascii_of_string s)).
  set (neg := starts_with_minus t || _).
  assert (Hd : Forall (fun c => is_digit_or_dot c = true) (filter is_digit_or_dot t)).
  { apply Forall_forall. intros x Hx. now apply filter_In in Hx. }
  destruct (filter is_digit_or_dot t) as [|c d'] eqn:E; [now left|]. right.
  exists (c :: d'). split; [discriminate|]. split; auto.
  destruct neg; auto.
Qed.

Lemma normalize_space_amount (s : string) :
  normalize_space (normalize_amount s) = normalize_amount s.
Proof.
  destruct (normalize_amount_shape s) as [-> | [d [_ [Hd [-> | ->]]]]].
  - reflexivity.
  - apply normalize_space_no_space, digits_no_space, Hd.
  - apply normalize_space_no_space. constructor; [reflexivity|]. now apply digits_no_space.
Qed.

Lemma normalize_amount_idem (s : string) :
  normalize_amount (normalize_amount s) = normalize_amount s.
Proof.
  destruct (normalize_amount_shape s) as [-> | [d [Hne [Hd [-> | ->]]]]].
  - reflexivity.
  - unfold normalize_amount. rewrite list_ascii_of_string_of_list_ascii.
    rewrite no_space_strip by now apply digits_no_space.
    rewrite (filter_forall_id _ _ Hd).
    rewrite !(existsb_digits _ d) by (reflexivity || exact Hd).
    destruct d as [|c d']; [congruence|].
    inversion Hd as [|? ? Hc _]; subst.
    assert (Hm : Ascii.eqb c "-"%char = false).
    { destruct (Ascii.eqb_spec c "-"%char); subst; [discriminate|reflexivity]. }
    simpl. now rewrite Hm.
  - unfold normalize_amount. rewrite list_ascii_of_string_of_list_ascii.
    rewrite no_space_strip
      by (constructor; [reflexivity|]; now apply digits_no_space).
    cbn [filter starts_with_minus]. change (is_digit_or_dot "-"%char) with false.
    rewrite (filter_forall_id _ _ Hd).
    destruct d; [congruence|]. reflexivity.
Qed.

Lemma canon_cell_idem (amount_cols : list string) (k v : string) :
  canon_cell amount_cols k (canon_cell amount_cols k v) = canon_cell amount_cols k v.
Proof.
  unfold canon_cell. destruct (existsb (String.eqb k) amount_cols).
  - now rewrite normalize_space_amount, normalize_amount_idem.
  - apply normalize_space_idem.
Qed.

(** ** Dictionary lemmas *)

Lemma dict_set_keys {V : Type} (d : list (string * V)) (k : string) (v : V) :
  dict_keys (dict_set d k v) =
  if existsb (String.eqb k) (dict_keys d) then dict_keys d else (dict_keys d ++ [k])%list.
Proof.
  induction d as [|[k' v'] d IH]; simpl; auto.
  destruct (String.eqb k k') eqn:E; simpl; auto.
  rewrite IH. destruct (existsb _ _); reflexivity.
Qed.

Lemma existsb_eqb_In (k : string) (l : list string) :
  existsb (String.eqb k) l = true <-> In k l.
Proof.
  rewrite existsb_exists. split.
  - intros [x [Hx E]]. apply String.eqb_eq in E. now subst.
  - intros H. exists k. split; auto. apply String.eqb_refl.
Qed.

Lemma dict_set_nodup {V : Type} (d : list (string * V)) (k : string) (v : V) :
  NoDup (dict_keys d) -> NoDup (dict_keys (dict_set d k v)).
Proof.
  intros H. rewrite dict_set_keys. destruct (existsb _ _) eqn:E; auto.
  apply NoDup_app; auto.
  - constructor; auto. constructor.
  - intros x Hx [<- | []]. apply existsb_eqb_In in Hx. congruence.
Qed.

Lemma dict_set_fresh {V : Type} (d : list (string * V)) (k : string) (v : V) :
  ~ In k (dict_keys d) -> dict_set d k v = (d ++ [(k, v)])%list.
Proof.
  induction d as [|[k' v'] d IH]; intros H; simpl; auto.
  destruct (String.eqb_spec k k') as [<-|Hne].
  - exfalso. apply H. now left.
  - rewrite IH; auto. intros Hin. apply H. now right.
Qed.

Lemma dict_set_Forall {V : Type} (P : string -> V -> Prop) (d : list (string * V)) k v :
  Forall (fun kv => P (fst kv) (snd kv)) d -> P k v ->
  Forall (fun kv => P (fst kv) (snd kv)) (dict_set d k v).
Proof.
  intros H Hkv. induction H as [|[k' v'] d Hk' Hd IH]; simpl; auto.
  destruct (String.eqb_spec k k') as [<-|_]; constructor; auto.
Qed.

Lemma fold_set_fresh (g : string * string -> string) (d acc : row) :
  NoDup (dict_keys (acc ++ d)) ->
  fold_left (fun out kv => dict_set out (fst kv) (g kv)) d acc =
  (acc ++ map (fun kv => (fst kv, g kv)) d)%list.
Proof.
  revert acc. induction d as [|[k v] d IH]; intros acc H; simpl.
  - now rewrite app_nil_r.
  - unfold dict_keys in H. rewrite map_app in H. simpl in H.
    pose proof H as H0. apply NoDup_remove in H as [H1 H2].
    rewrite dict_set_fresh.
    2: { intros Hin. apply H2. apply in_or_app. now left. }
    rewrite IH.
    + now rewrite <- app_assoc.
    + unfold dict_keys. rewrite !map_app. simpl. rewrite <- app_assoc. exact H0.
Qed.

(** The invariant of the rows [canonicalize_row] returns. *)
Definition canon_fixed (amount_cols : list string) (d : row) : Prop :=
  NoDup (dict_keys d) /\
  Forall (fun kv => canon_cell amount_cols (fst kv) (snd kv) = snd kv) d.

Lemma canonicalize_row_fixed (amount_cols : list string) (r : row) :
  canon_fixed amount_cols (canonicalize_row amount_cols r).
Proof.
  unfold canonicalize_row.
  assert (Hacc : canon_fixed amount_cols []) by (split; constructor).
  revert Hacc. generalize (@nil (string * string)) as acc.
  induction r as [|[k v] r IH]; intros acc [Hnd Hf]; simpl; auto.
  - split; auto.
  - apply IH. split.
    + now apply dict_set_nodup.
    + apply (dict_set_Forall (fun k v => canon_cell amount_cols k v = v)); auto.
      apply canon_cell_idem.
Qed.

Lemma canonicalize_row_of_fixed (amount_cols : list string) (d : row) :
  canon_fixed amount_cols d -> canonicalize_row amount_cols d = d.
Proof.
  intros [Hnd Hf]. unfold canonicalize_row.
  rewrite (fold_set_fresh (fun kv => canon_cell amount_cols (fst kv) (snd kv))) by exact Hnd.
  simpl. induction Hf as [|[k v] d Hkv _ IH]; simpl in *; auto.
  rewrite Hkv. f_equal. apply IH. now inversion Hnd.
Qed.

(** ** Looking keys up *)

Lemma dict_get_In {V : Type} (r : list (string * V)) (k : string) (v : V) :
  NoDup (dict_keys r) -> (dict_get r k = Some v <-> In (k, v) r).
Proof.
  induction r as [|[k' v'] r IH]; intros Hnd; simpl; [split; [discriminate|tauto]|].
  inversion Hnd as [|? ? Hk' Hnd']; subst.
  destruct (String.eqb_spec k k') as [->|Hne]; split.
  - intros [= ->]. now left.
  - intros [[= ->] | Hin]; [reflexivity|].
    exfalso. apply Hk'. now apply (in_map fst) in Hin.
  - intros H. right. now apply IH.
  - intros [[= -> ->] | Hin]; [congruence|]. now apply IH.
Qed.

Lemma dict_get_ext (r1 r2 : row) :
  NoDup (dict_keys r1) -> NoDup (dict_keys r2) -> (forall x, In x r1 <-> In x r2) ->
  forall k, dict_get r1 k = dict_get r2 k.
Proof.
  intros H1 H2 Hm k.
  destruct (dict_get r1 k) as [v|] eqn:E1; destruct (dict_get r2 k) as [w|] eqn:E2; auto.
  - apply (dict_get_In r1) in E1; auto. apply Hm, (dict_get_In r2) in E1; auto. congruence.
  - apply (dict_get_In r1) in E1; auto. apply Hm, (dict_get_In r2) in E1; auto. congruence.
  - apply (dict_get_In r2) in E2; auto. apply Hm, (dict_get_In r1) in E2; auto. congruence.
Qed.

(** [dict_eqb] on dictionaries is equality of their sets of items. *)
Lemma dict_eqb_members (a b : row) :
  NoDup (dict_keys a) -> NoDup (dict_keys b) -> dict_eqb a b = true ->
  forall x, In x a <-> In x b.
Proof.
  intros Ha Hb H. unfold dict_eqb in H. apply andb_prop in H as [Hlen Hall].
  apply Nat.eqb_eq in Hlen. rewrite forallb_forall in Hall.
  assert (Hab : incl a b).
  { intros [k v] Hin. specialize (Hall _ Hin). simpl in Hall.
    destruct (dict_get b k) as [w|] eqn:E; [|discriminate].
    apply String.eqb_eq in Hall. subst w. now apply dict_get_In. }
  assert (Hba : incl b a).
  { apply NoDup_length_incl; auto; [eapply NoDup_map_inv; exact Ha | lia]. }
  intros x; split; auto.
Qed.

Lemma dict_eqb_complete (a b : row) :
  NoDup (dict_keys a) -> NoDup (dict_keys b) -> (forall x, In x a <-> In x b) ->
  dict_eqb a b = true.
Proof.
  intros Ha Hb Hm. unfold dict_eqb. apply andb_true_intro. split.
  - apply Nat.eqb_eq, Permutation_length, NoDup_Permutation; auto;
      eapply NoDup_map_inv; eassumption.
  - apply forallb_forall. intros [k v] Hin. simpl.
    assert (E : dict_get b k = Some v) by (apply dict_get_In; auto; now apply Hm).
    rewrite E. apply String.eqb_refl.
Qed.

Lemma dict_eqb_refl (a : row) : NoDup (dict_keys a) -> dict_eqb a a = true.
Proof. intros H. apply dict_eqb_complete; auto. reflexivity. Qed.

(** ** Sorting items by key *)

Definition key_lt (a b : string * string) : Prop := String_as_OT.lt (fst a) (fst b).

#[local] Instance key_lt_trans : Transitive key_lt.
Proof. intros a b c. unfold key_lt. apply StrictOrder_Transitive. Qed.

Lemma key_lt_irrefl (a : string * string) : ~ key_lt a a.
Proof. unfold key_lt. apply StrictOrder_Irreflexive. Qed.

Lemma insert_item_perm (x : string * string) (l : row) : Permutation (insert_item x l) (x :: l).
Proof.
  induction l as [|y l IH]; simpl; auto.
  destruct (String_as_OT.compare (fst x) (fst y)); auto.
  rewrite IH. apply perm_swap.
Qed.

Lemma sort_items_perm (r : row) : Permutation (sort_items r) r.
Proof.
  induction r as [|x r IH]; simpl; auto.
  rewrite insert_item_perm. now constructor.
Qed.

Lemma insert_item_hd (a x : string * string) (l : row) :
  HdRel key_lt a l -> key_lt a x -> HdRel key_lt a (insert_item x l).
Proof.
  intros Hl Hx. destruct l as [|y l]; simpl; [now constructor|].
  destruct (String_as_OT.compare (fst x) (fst y)); constructor; auto; now inversion Hl.
Qed.

Lemma insert_item_sorted (x : string * string) (l : row) :
  Sorted key_lt l -> ~ In (fst x) (dict_keys l) -> Sorted key_lt (insert_item x l).
Proof.
  induction l as [|y l IH]; intros Hs Hn; simpl; [now repeat constructor|].
  destruct (String_as_OT.compare_spec (fst x) (fst y)) as [Heq|Hlt|Hgt].
  - exfalso. apply Hn. left. now symmetry.
  - constructor; [assumption | now constructor].
  - inversion Hs; subst. constructor.
    + apply IH; auto. intros Hin. apply Hn. now right.
    + now apply insert_item_hd.
Qed.

Lemma sort_items_sorted (r : row) : NoDup (dict_keys r) -> Sorted key_lt (sort_items r).
Proof.
  induction r as [|x r IH]; intros Hnd; simpl; [constructor|].
  inversion Hnd as [|? ? Hx Hnd']; subst.
  apply insert_item_sorted; auto. intros Hin. apply Hx.
  unfold dict_keys in *. eapply Permutation_in; [|exact Hin].
  apply Permutation_map, sort_items_perm.
Qed.

Lemma strongly_sorted_unique (l1 l2 : row) :
  StronglySorted key_lt l1 -> StronglySorted key_lt l2 ->
  (forall x, In x l1 <-> In x l2) -> l1 = l2.
Proof.
  revert l2. induction l1 as [|a l1 IH]; intros l2 H1 H2 Hm.
  - destruct l2 as [|b l2]; auto. exfalso. apply (proj2 (Hm b)). now left.
  - destruct l2 as [|b l2]; [exfalso; apply (proj1 (Hm a)); now left|].
    apply StronglySorted_inv in H1 as [H1 F1]. apply StronglySorted_inv in H2 as [H2 F2].
    rewrite Forall_forall in F1, F2.
    assert (a = b) as <-.
    { destruct (proj1 (Hm a) (or_introl eq_refl)) as [|Ha]; auto.
      destruct (proj2 (Hm b) (or_introl eq_refl)) as [|Hb]; auto.
      exfalso. apply (key_lt_irrefl a). transitivity b; auto. }
    f_equal. apply IH; auto. intros x; split; intros Hx.
    + destruct (proj1 (Hm x) (or_intror Hx)) as [<-|]; auto.
      exfalso. exact (key_lt_irrefl _ (F1 _ Hx)).
    + destruct (proj2 (Hm x) (or_intror Hx)) as [<-|]; auto.
      exfalso. exact (key_lt_irrefl _ (F2 _ Hx)).
Qed.

Lemma sort_items_ext (r1 r2 : row) :
  NoDup (dict_keys r1) -> NoDup (dict_keys r2) -> (forall x, In x r1 <-> In x r2) ->
  sort_items r1 = sort_items r2.
Proof.
  intros H1 H2 Hm. apply strongly_sorted_unique.
  - apply Sorted_StronglySorted; [exact key_lt_trans|]. now apply sort_items_sorted.
  - apply Sorted_StronglySorted; [exact key_lt_trans|]. now apply sort_items_sorted.
  - intros x. split; intros Hx.
    + apply (Permutation_in _ (Permutation_sym (sort_items_perm r2))), Hm.
      exact (Permutation_in _ (sort_items_perm r1) Hx).
    + apply (Permutation_in _ (Permutation_sym (sort_items_perm r1))), Hm.
      exact (Permutation_in _ (sort_items_perm r2) Hx).
Qed.

(** [row_key] only looks at the items of a dictionary, not their order. *)
Lemma row_key_ext (key_col : string) (r1 r2 : row) :
  NoDup (dict_keys r1) -> NoDup (dict_keys r2) -> (forall x, In x r1 <-> In x r2) ->
  row_key key_col r1 = row_key key_col r2.
Proof.
  intros H1 H2 Hm. unfold row_key, dict_get_or, json_dumps_sorted.
  rewrite (dict_get_ext r1 r2 H1 H2 Hm key_col), (sort_items_ext r1 r2 H1 H2 Hm).
  reflexivity.
Qed.

Lemma row_key_dict_eqb (key_col : string) (r1 r2 : row) :
  NoDup (dict_keys r1) -> NoDup (dict_keys r2) -> dict_eqb r1 r2 = true ->
  row_key key_col r1 = row_key key_col r2.
Proof. intros H1 H2 H. apply row_key_ext; auto. now apply dict_eqb_members. Qed.

(** ** The maps built by [detect_changes] *)

Abbreviation canon := (canonicalize_row amount_cols_default).

Lemma canon_nodup (r : row) : NoDup (dict_keys (canon r)).
Proof. apply (canonicalize_row_fixed amount_cols_default r). Qed.

Lemma dict_get_some_In {V : Type} (d : list (string * V)) (k : string) (v : V) :
  dict_get d k = Some v -> In (k, v) d.
Proof.
  induction d as [|[k' v'] d IH]; simpl; [discriminate|].
  destruct (String.eqb_spec k k') as [->|_]; [intros [= ->]; now left|].
  intros H. right. now apply IH.
Qed.

Lemma dict_get_set {V : Type} (d : list (string * V)) (k k' : string) (v : V) :
  dict_get (dict_set d k' v) k = if String.eqb k k' then Some v else dict_get d k.
Proof.
  induction d as [|[k'' v''] d IH]; simpl; auto.
  destruct (String.eqb_spec k' k'') as [->|Hne]; simpl.
  - destruct (String.eqb k k''); reflexivity.
  - rewrite IH. destruct (String.eqb_spec k k'') as [->|]; auto.
    destruct (String.eqb_spec k'' k') as [->|]; [congruence|reflexivity].
Qed.

Lemma dict_get_none {V : Type} (d : list (string * V)) (k : string) :
  dict_get d k = None <-> ~ In k (dict_keys d).
Proof.
  induction d as [|[k' v'] d IH]; simpl; [tauto|].
  destruct (String.eqb_spec k k') as [->|Hne].
  - split; [discriminate|]. intros H. exfalso. now apply H; left.
  - rewrite IH. split; intros H; [intros [->|Hin]; auto|auto].
Qed.

(** The invariant of [build_map]: distinct keys, every value one of the
    rows, stored under its own key. *)
Definition map_inv (key_col : string) (cs : list row) (m : list (string * row)) : Prop :=
  NoDup (dict_keys m) /\
  Forall (fun kv => In (snd kv) cs /\ row_key key_col (snd kv) = fst kv) m.

Lemma build_map_inv (key_col : string) (cs : list row) : map_inv key_col cs (build_map key_col cs).
Proof.
  unfold build_map.
  assert (H : forall l acc, incl l cs -> map_inv key_col cs acc ->
            map_inv key_col cs
              (fold_left (fun m r => dict_set m (row_key key_col r) r) l acc)).
  { induction l as [|r l IH]; intros acc Hl [Hnd Hf]; simpl; [split; auto|].
    apply IH; [intros x Hx; apply Hl; now right|]. split.
    - now apply dict_set_nodup.
    - apply (dict_set_Forall (fun k v => In v cs /\ row_key key_col v = k)); auto.
      split; auto. apply Hl. now left. }
  apply H; [intros x; auto | split; constructor].
Qed.

Lemma build_map_get (key_col : string) (cs : list row) (k : string) (v : row) :
  dict_get (build_map key_col cs) k = Some v -> In v cs /\ row_key key_col v = k.
Proof.
  intros H. apply dict_get_some_In in H.
  destruct (build_map_inv key_col cs) as [_ Hf]. rewrite Forall_forall in Hf.
  exact (Hf _ H).
Qed.

Lemma fold_set_fresh_gen {A V : Type} (f : A -> string) (g : A -> V)
    (l : list A) (acc : list (string * V)) :
  NoDup (dict_keys acc ++ map f l)%list ->
  fold_left (fun m a => dict_set m (f a) (g a)) l acc = (acc ++ map (fun a => (f a, g a)) l)%list.
Proof.
  revert acc. induction l as [|a l IH]; intros acc H; simpl.
  - now rewrite app_nil_r.
  - pose proof H as H0. apply NoDup_remove in H as [_ H2].
    rewrite dict_set_fresh by (intros Hin; apply H2, in_or_app; now left).
    rewrite IH.
    + now rewrite <- app_assoc.
    + unfold dict_keys in *. rewrite map_app. simpl. now rewrite <- app_assoc.
Qed.

Lemma build_map_fresh (key_col : string) (cs : list row) :
  NoDup (map (row_key key_col) cs) ->
  build_map key_col cs = map (fun c => (row_key key_col c, c)) cs.
Proof.
  intros H. unfold build_map.
  rewrite (fold_set_fresh_gen (row_key key_col) (fun r => r) cs []) by exact H.
  reflexivity.
Qed.

(** ** [list.index] *)

Lemma list_index_found (x : row) (l : list row) (i : nat) :
  list_index x l = Some i -> exists y, nth_error l i = Some y /\ dict_eqb y x = true.
Proof.
  revert i. induction l as [|r l IH]; intros i; simpl; [discriminate|].
  destruct (dict_eqb r x) eqn:E; [intros [= <-]; now exists r|].
  destruct (list_index x l) as [j|] eqn:Ej; [|discriminate].
  intros [= <-]. simpl. now apply IH.
Qed.

Lemma list_index_total (x : row) (l : list row) :
  In x l -> NoDup (dict_keys x) -> exists i, list_index x l = Some i.
Proof.
  intros Hin Hnd. induction l as [|r l IH]; simpl; [destruct Hin|].
  destruct (dict_eqb r x) eqn:E; [eauto|].
  destruct Hin as [->|Hin]; [now rewrite dict_eqb_refl in E|].
  destruct (IH Hin) as [i ->]. eauto.
Qed.

Lemma list_index_app (x c : row) (pre suf : list row) :
  (forall y, In y pre -> dict_eqb y x = false) -> dict_eqb c x = true ->
  list_index x (pre ++ c :: suf)%list = Some (List.length pre).
Proof.
  intros Hpre Hc. induction pre as [|y pre IH]; simpl; [now rewrite Hc|].
  rewrite (Hpre y (or_introl eq_refl)), IH; auto.
  intros z Hz. apply Hpre. now right.
Qed.

(** The row at the position [list.index] finds in the canonicalised rows. *)
Lemma index_raw (x : row) (raws : list row) (i : nat) :
  list_index x (map canon raws) = Some i ->
  exists r, nth_error raws i = Some r /\ dict_eqb (canon r) x = true.
Proof.
  intros H. destruct (list_index_found _ _ _ H) as [y [Hy Heq]].
  rewrite nth_error_map in Hy.
  destruct (nth_error raws i) as [r|]; [|discriminate]. injection Hy as <-. eauto.
Qed.

(** ** [detect_changes] never raises *)

Lemma collect_new_some (om : list (string * row)) (nr : list row) (items : list (string * row)) :
  (forall kv, In kv items -> In (snd kv) (map canon nr)) ->
  exists res, collect_new om (map canon nr) nr items = Some res.
Proof.
  induction items as [|[k norm] items IH]; intros H; simpl; [eauto|].
  destruct IH as [rest Hrest]; [intros kv Hkv; apply H; now right|].
  destruct (dict_get om k); [eauto|].
  assert (Hin : In norm (map canon nr)) by exact (H _ (or_introl eq_refl)).
  destruct (list_index_total norm (map canon nr) Hin) as [i Hi].
  { apply in_map_iff in Hin as [r [<- _]]. apply canon_nodup. }
  rewrite Hi. destruct (index_raw _ _ _ Hi) as [r [-> _]]. rewrite Hrest. eauto.
Qed.

Lemma collect_updated_some (om : list (string * row)) (orows nr : list row)
    (items : list (string * row)) :
  (forall kv, In kv items -> In (snd kv) (map canon nr)) ->
  (forall k v, dict_get om k = Some v -> In v (map canon orows)) ->
  exists res, collect_updated om (map canon orows) orows (map canon nr) nr items = Some res.
Proof.
  intros Hn Ho. induction items as [|[k nn] items IH]; simpl; [eauto|].
  destruct IH as [rest Hrest]; [intros kv Hkv; apply Hn; now right|].
  destruct (dict_get om k) as [v|] eqn:E; [|eauto].
  destruct (negb (dict_eqb nn v)); [|eauto].
  pose proof (Ho _ _ E) as Hv.
  assert (Hnn : In nn (map canon nr)) by exact (Hn _ (or_introl eq_refl)).
  destruct (list_index_total v _ Hv) as [i Hi].
  { apply in_map_iff in Hv as [r [<- _]]. apply canon_nodup. }
  destruct (list_index_total nn _ Hnn) as [j Hj].
  { apply in_map_iff in Hnn as [r [<- _]]. apply canon_nodup. }
  rewrite Hi, Hj.
  destruct (index_raw _ _ _ Hi) as [r1 [-> _]].
  destruct (index_raw _ _ _ Hj) as [r2 [-> _]].
  rewrite Hrest. eauto.
Qed.

Lemma build_map_values (key_col : string) (cs : list row) :
  forall kv, In kv (build_map key_col cs) -> In (snd kv) cs.
Proof.
  intros kv Hkv. destruct (build_map_inv key_col cs) as [_ Hf].
  rewrite Forall_forall in Hf. now apply Hf.
Qed.

Lemma detect_changes_total (key_col : string) (old_rows new_rows : list row) :
  exists ne up, detect_changes key_col old_rows new_rows = Some (ne, up).
Proof.
  unfold detect_changes.
  destruct (collect_new_some (build_map key_col (map canon old_rows)) new_rows
              (build_map key_col (map canon new_rows))) as [ne Hne].
  { apply build_map_values. }
  destruct (collect_updated_some (build_map key_col (map canon old_rows)) old_rows new_rows
              (build_map key_col (map canon new_rows))) as [up Hup].
  { apply build_map_values. }
  { intros k v Hk. now apply build_map_get in Hk as [Hv _]. }
  rewrite Hne, Hup. eauto.
Qed.

(** ** Diffing a sequence against itself, or against nothing *)

Lemma collect_new_all_known (om : list (string * row)) (nn nr : list row)
    (items : list (string * row)) :
  (forall kv, In kv items -> dict_get om (fst kv) <> None) ->
  collect_new om nn nr items = Some [].
Proof.
  induction items as [|[k v] items IH]; intros H; simpl; auto.
  destruct (dict_get om k) eqn:E.
  - apply IH. intros kv Hkv. apply H. now right.
  - exfalso. exact (H (k, v) (or_introl eq_refl) E).
Qed.

Lemma collect_updated_all_same (om : list (string * row)) (on orows nn nr : list row)
    (items : list (string * row)) :
  (forall kv, In kv items ->
     match dict_get om (fst kv) with Some v => dict_eqb (snd kv) v = true | None => True end) ->
  collect_updated om on orows nn nr items = Some [].
Proof.
  induction items as [|[k v] items IH]; intros H; simpl; auto.
  assert (IH' : collect_updated om on orows nn nr items = Some [])
    by (apply IH; intros kv Hkv; apply H; now right).
  specialize (H (k, v) (or_introl eq_refl)). simpl in H.
  destruct (dict_get om k); auto. now rewrite H.
Qed.

Lemma collect_updated_empty_old (on orows nn nr : list row) (items : list (string * row)) :
  collect_updated [] on orows nn nr items = Some [].
Proof. apply collect_updated_all_same. intros; exact I. Qed.

Lemma collect_new_bootstrap (key_col : string) (pre suf : list row) :
  NoDup (map (raw_key key_col) (pre ++ suf)) ->
  collect_new [] (map canon (pre ++ suf)) (pre ++ suf)
    (map (fun c => (row_key key_col c, c)) (map canon suf)) = Some suf.
Proof.
  revert pre. induction suf as [|r suf IH]; intros pre Hnd; simpl; auto.
  rewrite map_app. simpl.
  rewrite (list_index_app (canon r) (canon r) (map canon pre) (map canon suf)).
  2: { intros y Hy. destruct (dict_eqb y (canon r)) eqn:E; auto. exfalso.
       apply in_map_iff in Hy as [p [<- Hp]].
       apply (row_key_dict_eqb key_col) in E; try apply canon_nodup.
       rewrite map_app in Hnd. simpl in Hnd. apply NoDup_remove_2 in Hnd.
       apply Hnd, in_or_app. left. apply in_map_iff. exists p. split; auto. }
  2: { apply dict_eqb_refl, canon_nodup. }
  rewrite length_map, nth_error_app2, Nat.sub_diag by lia. simpl.
  specialize (IH (pre ++ [r])%list). rewrite <- app_assoc in IH. simpl in IH.
  change (canon r :: map canon suf) with (map canon (r :: suf)). rewrite <- map_app.
  rewrite IH; auto.
Qed.

(** ** Rows whose key is not among the new keys *)

Lemma collect_new_congr (om1 om2 : list (string * row)) (nn nr : list row)
    (items : list (string * row)) :
  (forall kv, In kv items -> dict_get om1 (fst kv) = dict_get om2 (fst kv)) ->
  collect_new om1 nn nr items = collect_new om2 nn nr items.
Proof.
  induction items as [|[k v] items IH]; intros H; simpl; auto.
  assert (E : dict_get om1 k = dict_get om2 k) by exact (H (k, v) (or_introl eq_refl)).
  rewrite E, IH; auto.
  intros kv Hkv. apply H. now right.
Qed.

Lemma collect_updated_congr (om1 om2 : list (string * row)) (on1 or1 on2 or2 nn nr : list row)
    (items : list (string * row)) :
  (forall kv, In kv items -> dict_get om1 (fst kv) = dict_get om2 (fst kv)) ->
  (forall kv v, In kv items -> dict_get om1 (fst kv) = Some v ->
     (let* i := list_index v on1 in nth_error or1 i) =
     (let* i := list_index v on2 in nth_error or2 i)) ->
  collect_updated om1 on1 or1 nn nr items = collect_updated om2 on2 or2 nn nr items.
Proof.
  induction items as [|[k nv] items IH]; intros H1 H2; simpl; auto.
  rewrite IH; [| intros kv Hkv; apply H1; now right | intros kv v Hkv; apply H2; now right].
  assert (E1 : dict_get om1 k = dict_get om2 k) by exact (H1 (k, nv) (or_introl eq_refl)).
  rewrite <- E1.
  destruct (dict_get om1 k) as [v|] eqn:E; auto.
  destruct (negb (dict_eqb nv v)); auto.
  specialize (H2 (k, nv) v (or_introl eq_refl) E).
  destruct (list_index v on1) as [i1|], (list_index v on2) as [i2|];
    destruct (list_index nv nn) as [j|]; auto.
  - now rewrite H2.
  - now rewrite H2.
  - now rewrite <- H2.
Qed.

Lemma index_nth_find (x : row) (raws : list row) :
  (let* i := list_index x (map canon raws) in nth_error raws i) =
  find (fun r => dict_eqb (canon r) x) raws.
Proof.
  induction raws as [|r raws IH]; simpl; auto.
  destruct (dict_eqb (canon r) x); auto.
  destruct (list_index x (map canon raws)); auto.
Qed.

Lemma find_filter {A : Type} (p q : A -> bool) (l : list A) :
  (forall x, p x = true -> q x = true) -> find p (filter q l) = find p l.
Proof.
  intros H. induction l as [|x l IH]; simpl; auto.
  destruct (q x) eqn:Eq; simpl; rewrite ?IH; auto.
  destruct (p x) eqn:Ep; auto. rewrite (H x Ep) in Eq. discriminate.
Qed.

Lemma build_map_filter (key_col : string) (q : row -> bool) (cs : list row) (k : string) :
  (forall c, row_key key_col c = k -> q c = true) ->
  dict_get (build_map key_col (filter q cs)) k = dict_get (build_map key_col cs) k.
Proof.
  intros Hq. unfold build_map.
  assert (G : forall l (acc1 acc2 : list (string * row)), dict_get acc1 k = dict_get acc2 k ->
     dict_get (fold_left (fun m r => dict_set m (row_key key_col r) r) (filter q l) acc1) k =
     dict_get (fold_left (fun m r => dict_set m (row_key key_col r) r) l acc2) k).
  { induction l as [|r l IH]; intros acc1 acc2 E; simpl; auto.
    destruct (q r) eqn:Er; simpl; apply IH; rewrite !dict_get_set.
    - now rewrite E.
    - destruct (String.eqb_spec k (row_key key_col r)) as [->|]; auto.
      rewrite (Hq r eq_refl) in Er. discriminate. }
  now apply G.
Qed.

Lemma map_filter_comm {A B : Type} (f : A -> B) (p : B -> bool) (l : list A) :
  map f (filter (fun x => p (f x)) l) = filter p (map f l).
Proof. induction l as [|x l IH]; simpl; auto. destruct (p (f x)); simpl; now rewrite IH. Qed.

Lemma build_map_key_in (key_col : string) (rows : list row) (kv : string * row) :
  In kv (build_map key_col (map canon rows)) -> In (fst kv) (map (raw_key key_col) rows).
Proof.
  intros H. destruct (build_map_inv key_col (map canon rows)) as [_ Hf].
  rewrite Forall_forall in Hf. destruct (Hf kv H) as [Hv Hk].
  apply in_map_iff in Hv as [r [Hr Hin]]. apply in_map_iff. exists r. split; auto.
  unfold raw_key. now rewrite Hr.
Qed.

(** Dropping the old rows whose key is not a key of the new rows does not
    change the diff. *)
Lemma detect_changes_filter_old (key_col : string) (old_rows new_rows : list row) :
  detect_changes key_col old_rows new_rows =
  detect_changes key_col
    (filter (fun r => existsb (String.eqb (raw_key key_col r)) (map (raw_key key_col) new_rows))
       old_rows) new_rows.
Proof.
  set (newkeys := map (raw_key key_col) new_rows).
  set (q := fun c => existsb (String.eqb (row_key key_col c)) newkeys).
  unfold detect_changes. cbv zeta.
  change (fun r => existsb (String.eqb (raw_key key_col r)) newkeys)
    with (fun r => q (canon r)).
  rewrite map_filter_comm.
  set (nm := build_map key_col (map canon new_rows)).
  assert (Hget : forall kv, In kv nm ->
     dict_get (build_map key_col (map canon old_rows)) (fst kv) =
     dict_get (build_map key_col (filter q (map canon old_rows))) (fst kv)).
  { intros kv Hkv. symmetry. apply build_map_filter. intros c Hc. unfold q.
    apply existsb_eqb_In. rewrite Hc. now apply build_map_key_in. }
  rewrite (collect_new_congr _ _ _ _ _ Hget).
  rewrite (collect_updated_congr (build_map key_col (map canon old_rows))
             (build_map key_col (filter q (map canon old_rows)))
             (map canon old_rows) old_rows (filter q (map canon old_rows))
             (filter (fun r => q (canon r)) old_rows) _ _ _ Hget).
  - reflexivity.
  - intros kv v Hkv E. rewrite <- map_filter_comm, !index_nth_find.
    symmetry. apply find_filter. intros r Hr. unfold q.
    apply build_map_get in E as [Hv Hk].
    apply in_map_iff in Hv as [r0 [<- _]].
    apply (row_key_dict_eqb key_col) in Hr; try apply canon_nodup.
    rewrite Hr, Hk. apply existsb_eqb_In. now apply build_map_key_in.
Qed.

(** ** Keys of the output *)

Lemma build_map_keys (key_col : string) (cs : list row) :
  dict_keys (build_map key_col cs) = first_occ (map (row_key key_col) cs).
Proof.
  unfold build_map, first_occ.
  assert (G : forall (acc : list (string * row)),
    dict_keys (fold_left (fun m r => dict_set m (row_key key_col r) r) cs acc) =
    fold_left (fun acc k => if existsb (String.eqb k) acc then acc else (acc ++ [k])%list)
      (map (row_key key_col) cs) (dict_keys acc)).
  { induction cs as [|c cs IH]; intros acc; simpl; auto.
    rewrite IH, dict_set_keys. reflexivity. }
  apply G.
Qed.

Lemma collect_new_keys (key_col : string) (om : list (string * row)) (nr : list row)
    (items : list (string * row)) (ne : list row) :
  (forall kv, In kv items -> row_key key_col (snd kv) = fst kv /\ NoDup (dict_keys (snd kv))) ->
  collect_new om (map canon nr) nr items = Some ne ->
  subseq (map (raw_key key_col) ne) (map fst items).
Proof.
  revert ne. induction items as [|[k norm] items IH]; intros ne Hi H; simpl in *.
  - injection H as <-. constructor.
  - assert (Hi' : forall kv, In kv items ->
              row_key key_col (snd kv) = fst kv /\ NoDup (dict_keys (snd kv)))
      by (intros; apply Hi; now right).
    destruct (Hi (k, norm) (or_introl eq_refl)) as [Hk Hnd]; simpl in Hk, Hnd.
    destruct (dict_get om k); [constructor; now apply IH|].
    destruct (list_index norm (map canon nr)) as [i|] eqn:Ei; [|discriminate].
    destruct (index_raw _ _ _ Ei) as [r [Er Heq]]. rewrite Er in H.
    destruct (collect_new om (map canon nr) nr items) as [rest|] eqn:Erest; [|discriminate].
    injection H as <-. simpl.
    replace (raw_key key_col r) with k.
    + apply subseq_take. exact (IH rest Hi' eq_refl).
    + unfold raw_key. rewrite <- Hk. symmetry.
      apply row_key_dict_eqb; auto. apply canon_nodup.
Qed.

Lemma collect_updated_keys (om : list (string * row)) (on orows nn nr : list row)
    (items : list (string * row)) (up : list (string * row * row)) :
  collect_updated om on orows nn nr items = Some up ->
  subseq (map (fun t => fst (fst t)) up) (map fst items).
Proof.
  revert up. induction items as [|[k v] items IH]; intros up H; simpl in *.
  - injection H as <-. constructor.
  - destruct (dict_get om k) as [w|]; [|constructor; now apply IH].
    destruct (negb (dict_eqb v w)); [|constructor; now apply IH].
    destruct (list_index w on) as [i|], (list_index v nn) as [j|]; try discriminate.
    destruct (nth_error orows i), (nth_error nr j); try discriminate.
    destruct (collect_updated om on orows nn nr items) as [rest|] eqn:E; [|discriminate].
    injection H as <-. simpl. apply subseq_take. now apply IH.
Qed.

(** ** Writing snapshot files *)

Lemma io_bind_ok {A B : Type} (m : io A) (k : A -> io B) (s : fs) (a : A) (s' : fs) :
  m s = (Ok a, s') -> io_bind m k s = k a s'.
Proof. intros H. unfold io_bind. now rewrite H. Qed.

Lemma io_bind_raise {A B : Type} (m : io A) (k : A -> io B) (s : fs) (e : string) (s' : fs) :
  m s = (Raise e, s') -> io_bind m k s = (Raise e, s').
Proof. intros H. unfold io_bind. now rewrite H. Qed.

Lemma str_app_assoc (a b c : string) : a ++ (b ++ c) = (a ++ b) ++ c.
Proof. induction a as [|x a IH]; simpl; now rewrite ?IH. Qed.

Lemma str_app_nil (a : string) : a ++ "" = a.
Proof. induction a as [|x a IH]; simpl; now rewrite ?IH. Qed.

Lemma tmp_path_neq (p : string) : tmp_path p <> p.
Proof.
  unfold tmp_path. induction p as [|c p IH]; simpl; [discriminate|].
  intros H. injection H as H. exact (IH H).
Qed.

Lemma dict_to_list_ok (fieldnames : list string) (r : row) (fields : list string) :
  dict_to_list fieldnames r = Ok fields -> forall k, In k (dict_keys r) -> In k fieldnames.
Proof.
  unfold dict_to_list. intros H k Hk.
  destruct (existsb _ (dict_keys r)) eqn:E; [discriminate|].
  destruct (In_dec string_dec k fieldnames) as [|Hn]; auto. exfalso.
  assert (Hx : existsb (fun k => negb (existsb (String.eqb k) fieldnames)) (dict_keys r) = true).
  { apply existsb_exists. exists k. split; auto.
    destruct (existsb (String.eqb k) fieldnames) eqn:Ek; auto.
    apply existsb_eqb_In in Ek. contradiction. }
  congruence.
Qed.

Lemma dict_to_list_own_keys (r : row) : exists fields, dict_to_list (dict_keys r) r = Ok fields.
Proof.
  unfold dict_to_list.
  destruct (existsb _ (dict_keys r)) eqn:E; [|eauto].
  apply existsb_exists in E as [k [Hk E]].
  assert (Hin : existsb (String.eqb k) (dict_keys r) = true) by now apply existsb_eqb_In.
  rewrite Hin in E. discriminate.
Qed.

(** [writerows] on rows one of which has a column outside [fieldnames]:
    it raises, having only appended to the file it writes. *)
Lemma writerows_bad (p : string) (h : list string) (rows : list row) (s : fs) :
  (exists r k, In r rows /\ In k (dict_keys r) /\ ~ In k h) ->
  exists e s', writerows p h rows s = (Raise e, s') /\
    (forall c, dict_get s p = Some c -> exists body, dict_get s' p = Some (c ++ body)) /\
    (forall q, q <> p -> dict_get s' q = dict_get s q).
Proof.
  revert s. induction rows as [|r rows IH]; intros s [r' [k [Hr [Hk Hh]]]]; [destruct Hr|].
  simpl. destruct (dict_to_list h r) as [fields|e] eqn:Ed.
  - destruct Hr as [<-|Hr].
    + exfalso. exact (Hh (dict_to_list_ok h r fields Ed k Hk)).
    + set (s1 := dict_set s p (dict_get_or s p "" ++ csv_line fields)).
      destruct (IH s1) as [e [s' [Hw [Hp Hq]]]]; [eauto 6|].
      exists e, s'. split; [|split].
      * rewrite (io_bind_ok _ _ s tt s1) by reflexivity. exact Hw.
      * intros c Hc. destruct (Hp (c ++ csv_line fields)) as [body Hb].
        { unfold s1, dict_get_or. rewrite dict_get_set, String.eqb_refl, Hc. reflexivity. }
        exists (csv_line fields ++ body). now rewrite str_app_assoc.
      * intros q Hne. rewrite (Hq q Hne). unfold s1. rewrite dict_get_set.
        destruct (String.eqb_spec q p); [congruence|reflexivity].
  - exists e, s. split; [reflexivity|]. split; auto.
    intros c Hc. exists "". now rewrite str_app_nil.
Qed.

(** * The claims *)

(** C9: [write_csv_atomic(path, [])] returns without touching the file
    system, for every path and every prior state of the files. *)
Theorem write_csv_atomic_empty_noop (path : string) (s : fs) :
  write_csv_atomic path [] s = (Ok tt, s).
Proof. reflexivity. Qed.


(** C4: for the old row {Modification Number: 1, Amount: $100.00, Action
    Type: X} and the new row {Modification Number: 1, Amount: 100.00, Action
    Type: Y}, [detect_changes] reports one updated entry keyed "1" and no new
    entry; for any header list, the only columns reported as changed are the
    occurrences of "Action Type" (Amount canonicalises equal), and with the
    full header list the formatter's line lists only Action Type. *)
Theorem update_isolates_changed_column :
  detect_changes mn [c4_old] [c4_new] = Some ([], [("1", c4_old, c4_new)]) /\
  (forall headers,
     changed_cols headers c4_old c4_new = filter (String.eqb "Action Type") headers) /\
  (forall name,
     format_change_lines name [mn; "Amount"; "Action Type"] [] [("1", c4_old, c4_new)] mn
     = [" - Updated (Mod #1): Action Type: X → Y"]).
Proof.
  split; [reflexivity|]. split; [|reflexivity].
  intros headers. unfold changed_cols.
  change (canonicalize_row amount_cols_default c4_old)
    with [(mn, "1"); ("Amount", "100.00"); ("Action Type", "X")].
  change (canonicalize_row amount_cols_default c4_new)
    with [(mn, "1"); ("Amount", "100.00"); ("Action Type", "Y")].
  induction headers as [|h hs IH]; [reflexivity|].
  cbn [filter]. rewrite IH. unfold dict_get_or. cbn [dict_get].
  destruct (String.eqb_spec h mn) as [->|H1]; [reflexivity|].
  destruct (String.eqb_spec h "Amount") as [->|H2]; [reflexivity|].
  destruct (String.eqb_spec h "Action Type") as [->|H3]; [reflexivity|].
  rewrite (proj2 (String.eqb_neq "Action Type" h)) by congruence.
  reflexivity.
Qed.

(** C5, as the claim states it, fails: ["12 (note)"] neither starts with a
    minus sign nor is wrapped in parentheses, yet it canonicalises to
    ["-12"], because the code negates whenever both parentheses occur
    anywhere in the stripped text. *)
Lemma normalize_amount_paren_anywhere :
  normalize_amount "12 (note)" = "-12" /\
  String.prefix "-" "12 (note)" = false /\
  String.get 0 "12 (note)" <> Some "("%char.
Proof. split; [reflexivity|]. split; [reflexivity|]. discriminate. Qed.

(** C5 (amended): let [d] be the characters of [s] that are ASCII digits or
    ['.']. If [d] is empty the result is ["0"]; otherwise it is [d], preceded
    by one ['-'] exactly when [s] with leading whitespace removed starts with
    ['-'] or [s] contains both ['('] and [')'] (anywhere).  In particular the
    four examples of the spec hold. *)
Theorem normalize_amount_spec (s : string) :
  let l := list_ascii_of_string s in
  let d := filter is_digit_or_dot l in
  let neg := starts_with_minus (lstrip l) || (contains "("%char l && contains ")"%char l) in
  (d = [] -> normalize_amount s = "0") /\
  (d <> [] -> normalize_amount s =
              (if neg then "-" else "") ++ string_of_list_ascii d) /\
  normalize_amount "$1,234.50" = "1234.50" /\ normalize_amount "1234.50" = "1234.50" /\
  normalize_amount "($500.00)" = "-500.00" /\ normalize_amount "" = "0".
Proof.
  intros l d neg. unfold normalize_amount.
  rewrite filter_strip by exact space_not_digit_or_dot.
  rewrite starts_with_minus_strip, !contains_strip by reflexivity.
  fold l d neg.
  split; [|split; [|repeat split; reflexivity]].
  - intros Hd. now rewrite Hd.
  - intros Hd. destruct d as [|c d']; [congruence|].
    unfold neg. destruct (_ || _); reflexivity.
Qed.

(** C6: canonicalising a row twice gives the same row as canonicalising it
    once, for every row and every list of monetary columns. *)
Theorem canonicalize_row_idempotent (amount_cols : list string) (r : row) :
  canonicalize_row amount_cols (canonicalize_row amount_cols r) =
  canonicalize_row amount_cols r.
Proof. apply canonicalize_row_of_fixed, canonicalize_row_fixed. Qed.

(** C7: the identity key of a (canonicalised) row.  When its key column
    holds a non-empty value, two rows with the same value there get the same
    key whatever their other columns; rows with the same items get the same
    key whatever the order of their columns; and when the key column is empty
    or absent the key is the JSON text of the items sorted by column name. *)
Theorem row_key_identity (key_col : string) (r1 r2 : row) :
  NoDup (dict_keys r1) ->
  ((dict_get_or r1 key_col "" <> "" /\
    dict_get_or r1 key_col "" = dict_get_or r2 key_col "") \/ Permutation r1 r2) ->
  row_key key_col r1 = row_key key_col r2 /\
  (dict_get_or r1 key_col "" = "" -> row_key key_col r1 = json_dumps_sorted r1) /\
  Permutation (sort_items r1) r1 /\ StronglySorted key_lt (sort_items r1).
Proof.
  intros Hnd Hcase. split; [|split; [|split]].
  - destruct Hcase as [[Hne Heq] | Hp].
    + unfold row_key. rewrite <- Heq.
      destruct (dict_get_or r1 key_col ""); [congruence | reflexivity].
    + apply row_key_ext; auto.
      * unfold dict_keys. eapply Permutation_NoDup; [apply Permutation_map, Hp | exact Hnd].
      * intros x. split; apply Permutation_in; [exact Hp | now apply Permutation_sym].
  - intros He. unfold row_key. now rewrite He.
  - apply sort_items_perm.
  - apply Sorted_StronglySorted; [exact key_lt_trans|]. now apply sort_items_sorted.
Qed.

(** C2: diffing a row sequence against itself reports nothing. *)
Theorem detect_changes_self (key_col : string) (rows : list row) :
  detect_changes key_col rows rows = Some ([], []).
Proof.
  unfold detect_changes.
  set (m := build_map key_col (map canon rows)).
  destruct (build_map_inv key_col (map canon rows)) as [Hnd Hf]. fold m in Hnd, Hf.
  rewrite Forall_forall in Hf.
  rewrite collect_new_all_known, collect_updated_all_same; auto.
  - intros [k v] Hkv. simpl.
    rewrite (proj2 (dict_get_In m k v Hnd) Hkv).
    destruct (Hf _ Hkv) as [Hv _]. simpl in Hv.
    apply in_map_iff in Hv as [r [<- _]]. apply dict_eqb_refl, canon_nodup.
  - intros [k v] Hkv. simpl. now rewrite (proj2 (dict_get_In m k v Hnd) Hkv).
Qed.

Lemma first_occ_gen (l acc : list string) :
  (forall x, In x (fold_left (fun acc k => if existsb (String.eqb k) acc then acc
                                          else (acc ++ [k])%list) l acc) <-> In x acc \/ In x l) /\
  (NoDup acc -> NoDup (fold_left (fun acc k => if existsb (String.eqb k) acc then acc
                                              else (acc ++ [k])%list) l acc)).
Proof.
  revert acc. induction l as [|k l IH]; intros acc; simpl.
  - split; [intros y; tauto | auto].
  - destruct (existsb (String.eqb k) acc) eqn:E; split.
    + intros x. rewrite (proj1 (IH acc)). apply existsb_eqb_In in E.
      split; [tauto|]. intros [H | [<- | H]]; auto.
    + apply (proj2 (IH acc)).
    + intros x. rewrite (proj1 (IH _)), in_app_iff. simpl. tauto.
    + intros Hnd. apply (proj2 (IH _)). apply NoDup_app; auto.
      * constructor; [intros []|constructor].
      * intros y Hy [Hk | []]. subst y. apply (proj2 (existsb_eqb_In k acc)) in Hy. congruence.
Qed.

Lemma first_occ_In (l : list string) (x : string) : In x (first_occ l) <-> In x l.
Proof. unfold first_occ. rewrite (proj1 (first_occ_gen l [])). simpl. tauto. Qed.

Lemma first_occ_nodup (l : list string) : NoDup (first_occ l).
Proof. apply (proj2 (first_occ_gen l [])). constructor. Qed.

Lemma first_occ_length (l : list string) : List.length (first_occ l) <= List.length l.
Proof.
  unfold first_occ.
  assert (G : forall l acc, List.length (fold_left (fun acc k => if existsb (String.eqb k) acc
                 then acc else (acc ++ [k])%list) l acc) <= List.length acc + List.length l).
  { induction l0 as [|k l0 IH]; intros acc; simpl; [lia|].
    destruct (existsb (String.eqb k) acc); rewrite IH; rewrite ?length_app; simpl; lia. }
  apply G.
Qed.

Lemma first_occ_shorter (l : list string) :
  ~ NoDup l -> List.length (first_occ l) < List.length l.
Proof.
  intros Hnd. destruct (Nat.lt_ge_cases (List.length (first_occ l)) (List.length l)) as [H|H];
    [exact H|].
  exfalso. apply Hnd. apply (NoDup_incl_NoDup (first_occ_nodup l) H).
  intros x Hx. now apply first_occ_In.
Qed.

Lemma build_map_last (key_col : string) (rows : list row) (k : string) :
  dict_get (build_map key_col (map canon rows)) k = option_map canon (last_with_key key_col rows k).
Proof.
  unfold build_map, last_with_key.
  assert (G : forall l (acc : list (string * row)) (a : option row),
    dict_get acc k = option_map canon a ->
    dict_get (fold_left (fun m r => dict_set m (row_key key_col r) r) (map canon l) acc) k =
    option_map canon (fold_left (fun acc r => if String.eqb (raw_key key_col r) k
                                              then Some r else acc) l a)).
  { induction l as [|r l IH]; intros acc a H; simpl; auto.
    apply IH. rewrite dict_get_set. unfold raw_key. rewrite String.eqb_sym.
    destruct (String.eqb _ k); auto. }
  now apply G.
Qed.

Lemma collect_new_empty_old (nr : list row) (items : list (string * row)) :
  (forall kv, In kv items -> In (snd kv) (map canon nr)) ->
  collect_new [] (map canon nr) nr items =
  Some (flat_map (fun kv => match find (fun r => dict_eqb (canon r) (snd kv)) nr with
                            | Some r => [r] | None => [] end) items).
Proof.
  induction items as [|[k norm] items IH]; intros H; simpl; auto.
  rewrite IH by (intros kv Hkv; apply H; now right).
  assert (Hin : In norm (map canon nr)) by exact (H _ (or_introl eq_refl)).
  destruct (list_index_total norm (map canon nr) Hin) as [i Hi].
  { apply in_map_iff in Hin as [r [<- _]]. apply canon_nodup. }
  pose proof (index_nth_find norm nr) as F. rewrite Hi in F. cbn beta iota in F.
  rewrite Hi. destruct (index_raw _ _ _ Hi) as [r [Er _]].
  rewrite Er in F |- *. rewrite <- F. reflexivity.
Qed.

Lemma flat_map_dict_keys (m : list (string * row)) (h : row -> list row) :
  NoDup (dict_keys m) ->
  flat_map (fun k => match dict_get m k with Some c => h c | None => [] end) (dict_keys m) =
  flat_map (fun kv => h (snd kv)) m.
Proof.
  induction m as [|[k v] m IH]; intros Hnd; simpl; auto.
  inversion Hnd as [|? ? Hk Hnd']; subst.
  rewrite String.eqb_refl. f_equal. rewrite <- (IH Hnd').
  rewrite !flat_map_concat_map. f_equal. apply map_ext_in. intros k' Hk'.
  destruct (String.eqb_spec k' k) as [->|]; [contradiction | reflexivity].
Qed.

Lemma bootstrap_entries_map (key_col : string) (rows : list row) :
  bootstrap_entries key_col rows =
  flat_map (fun kv => match find (fun r => dict_eqb (canon r) (snd kv)) rows with
                      | Some r => [r] | None => [] end)
    (build_map key_col (map canon rows)).
Proof.
  unfold bootstrap_entries.
  replace (first_occ (map (raw_key key_col) rows))
    with (dict_keys (build_map key_col (map canon rows)))
    by (rewrite build_map_keys, map_map; reflexivity).
  rewrite <- (flat_map_dict_keys _ (fun c => match find (fun r => dict_eqb (canon r) c) rows with
                                              | Some r => [r] | None => [] end))
    by apply (proj1 (build_map_inv _ _)).
  rewrite !flat_map_concat_map. f_equal. apply map_ext. intros k.
  rewrite build_map_last. destruct (last_with_key key_col rows k); reflexivity.
Qed.

Lemma bootstrap_entries_length (key_col : string) (rows : list row) :
  List.length (bootstrap_entries key_col rows) = List.length (first_occ (map (raw_key key_col) rows)).
Proof.
  rewrite bootstrap_entries_map.
  replace (first_occ (map (raw_key key_col) rows))
    with (dict_keys (build_map key_col (map canon rows)))
    by (rewrite build_map_keys, map_map; reflexivity).
  unfold dict_keys. rewrite length_map.
  destruct (build_map_inv key_col (map canon rows)) as [_ Hf].
  revert Hf. generalize (build_map key_col (map canon rows)) as m. intros m Hf.
  induction Hf as [|[k v] m [Hv _] Hf IH]; simpl; auto.
  simpl in Hv. apply in_map_iff in Hv as [r [<- Hr]].
  destruct (find (fun r' => dict_eqb (canon r') (canon r)) rows) eqn:E; simpl; [now rewrite IH|].
  exfalso. pose proof (find_none _ _ E r Hr) as F. cbn beta in F.
  rewrite dict_eqb_refl in F by apply canon_nodup. discriminate.
Qed.

(** C1, counterexample: two new rows with the same identity key collapse into
    one entry of the bootstrap diff (the key mapping keeps one row per key), so
    [diff([], new_rows)] is not [(new_rows, [])] for [new_rows = [r; r]]. *)
Lemma detect_changes_bootstrap_dup :
  detect_changes mn [] [[(mn, "1")]; [(mn, "1")]] = Some ([[(mn, "1")]], []) /\
  detect_changes mn [] [[(mn, "1")]; [(mn, "1")]]
    <> Some ([[(mn, "1")]; [(mn, "1")]], []).
Proof.
  split; [reflexivity | vm_compute; discriminate].
Qed.

(** C1 (amended): against an empty old snapshot the diff never raises and
    reports no updated entry.  Its new entries are [bootstrap_entries]: one
    row per distinct identity key, in the order the keys first occur, the
    row for key [k] being the first new row whose canonical form equals that
    of the last new row with key [k].  When the identity keys of the new
    rows are pairwise distinct these are exactly the new rows, unchanged and
    in order; when two new rows share a key there are fewer entries than new
    rows. *)
Theorem detect_changes_bootstrap (key_col : string) (new_rows : list row) :
  detect_changes key_col [] new_rows = Some (bootstrap_entries key_col new_rows, []) /\
  List.length (bootstrap_entries key_col new_rows)
    = List.length (first_occ (map (raw_key key_col) new_rows)) /\
  (NoDup (map (raw_key key_col) new_rows) ->
   detect_changes key_col [] new_rows = Some (new_rows, [])) /\
  (~ NoDup (map (raw_key key_col) new_rows) ->
   List.length (bootstrap_entries key_col new_rows) < List.length new_rows).
Proof.
  assert (Hb : detect_changes key_col [] new_rows = Some (bootstrap_entries key_col new_rows, [])).
  { unfold detect_changes. simpl.
    change (build_map key_col []) with (@nil (string * row)).
    rewrite collect_new_empty_old.
    - rewrite collect_updated_empty_old, bootstrap_entries_map. reflexivity.
    - intros kv Hkv. destruct (build_map_inv key_col (map canon new_rows)) as [_ Hf].
      rewrite Forall_forall in Hf. exact (proj1 (Hf kv Hkv)). }
  split; [exact Hb|]. split; [apply bootstrap_entries_length|]. split.
  - intros Hnd. unfold detect_changes. simpl.
    change (build_map key_col []) with (@nil (string * row)).
    rewrite collect_updated_empty_old.
    rewrite build_map_fresh by (unfold raw_key in Hnd; now rewrite map_map).
    pose proof (collect_new_bootstrap key_col [] new_rows) as Hc.
    rewrite !app_nil_l in Hc. now rewrite Hc.
  - intros Hnd. rewrite bootstrap_entries_length.
    eapply Nat.lt_le_trans; [exact (first_occ_shorter _ Hnd)|].
    now rewrite length_map.
Qed.

(** C3: rows of the old snapshot whose identity key does not occur among
    the new rows contribute nothing: for old rows [A; B] and new rows [A]
    with distinct keys the diff is empty; in general the diff never raises
    and equals the diff against the old rows whose keys occur in the new
    rows. *)
Theorem detect_changes_ignores_removed (key_col : string) (A B : row) :
  raw_key key_col A <> raw_key key_col B ->
  detect_changes key_col [A; B] [A] = Some ([], []) /\
  (forall old_rows new_rows,
     (exists res, detect_changes key_col old_rows new_rows = Some res) /\
     detect_changes key_col old_rows new_rows =
     detect_changes key_col
       (filter (fun r => existsb (String.eqb (raw_key key_col r))
                               (map (raw_key key_col) new_rows)) old_rows) new_rows).
Proof.
  intros Hab. split.
  - rewrite detect_changes_filter_old. simpl.
    rewrite String.eqb_refl. simpl.
    destruct (String.eqb_spec (raw_key key_col B) (raw_key key_col A)) as [E|_];
      [congruence|].
    apply detect_changes_self.
  - intros old_rows new_rows. split.
    + destruct (detect_changes_total key_col old_rows new_rows) as [ne [up H]]. eauto.
    + apply detect_changes_filter_old.
Qed.

(** C8: the new entries, and the updated entries, come in the order of first
    occurrence of their identity keys in the new rows. *)
Theorem detect_changes_order (key_col : string) (old_rows new_rows : list row)
    (ne : list row) (up : list (string * row * row)) :
  detect_changes key_col old_rows new_rows = Some (ne, up) ->
  subseq (map (raw_key key_col) ne) (first_occ (map (raw_key key_col) new_rows)) /\
  subseq (map (fun t => fst (fst t)) up) (first_occ (map (raw_key key_col) new_rows)).
Proof.
  unfold detect_changes. intros H.
  set (nm := build_map key_col (map canon new_rows)) in H.
  assert (Hk : map fst nm = first_occ (map (raw_key key_col) new_rows)).
  { unfold nm. change (map fst ?m) with (dict_keys m). rewrite build_map_keys.
    unfold raw_key. now rewrite map_map. }
  destruct (collect_new _ _ _ nm) as [ne'|] eqn:Ene; [|discriminate].
  destruct (collect_updated _ _ _ _ _ nm) as [up'|] eqn:Eup; [|discriminate].
  injection H as <- <-. rewrite <- Hk. split.
  - eapply collect_new_keys; [|exact Ene].
    intros kv Hkv. destruct (build_map_inv key_col (map canon new_rows)) as [_ Hf].
    rewrite Forall_forall in Hf. destruct (Hf kv Hkv) as [Hv Hkey]. split; auto.
    apply in_map_iff in Hv as [r [<- _]]. apply canon_nodup.
  - eapply collect_updated_keys. exact Eup.
Qed.

(** C10: the header is the column names of the first row; when a later row
    has a column the first row lacks, [write_csv_atomic] raises, having
    written only the temporary file (which holds the header line followed by
    what was written before the failing row), so the file at [path] is as it
    was. *)
Theorem write_csv_atomic_unknown_field (path : string) (r0 : row) (rest : list row) (s : fs) :
  (exists r k, In r rest /\ In k (dict_keys r) /\ ~ In k (dict_keys r0)) ->
  exists e s', write_csv_atomic path (r0 :: rest) s = (Raise e, s') /\
    dict_get s' path = dict_get s path /\
    (forall q, q <> tmp_path path -> dict_get s' q = dict_get s q) /\
    exists body, dict_get s' (tmp_path path) = Some (csv_line (dict_keys r0) ++ body).
Proof.
  intros [r [k [Hr [Hk Hh]]]].
  set (tmp := tmp_path path). set (h := dict_keys r0).
  set (s1 := dict_set s tmp "").
  set (s2 := dict_set s1 tmp (dict_get_or s1 tmp "" ++ csv_line h)).
  destruct (writerows_bad tmp h (r0 :: rest) s2) as [e [s' [Hw [Hp Hq]]]].
  { exists r, k. repeat split; auto. now right. }
  assert (Hs2 : forall q, q <> tmp -> dict_get s2 q = dict_get s q).
  { intros q Hne. unfold s2, s1. rewrite !dict_get_set.
    destruct (String.eqb_spec q tmp); [congruence|reflexivity]. }
  exists e, s'. split; [|split; [|split]].
  - unfold write_csv_atomic. cbv zeta. fold h tmp.
    rewrite (io_bind_ok _ _ s tt s1) by reflexivity.
    rewrite (io_bind_ok _ _ s1 tt s2) by reflexivity.
    now rewrite (io_bind_raise _ _ s2 e s').
  - assert (Hne : path <> tmp) by (intros E; apply (tmp_path_neq path); now symmetry).
    rewrite (Hq path Hne). now apply Hs2.
  - intros q Hne. rewrite (Hq q Hne). now apply Hs2.
  - apply Hp. unfold s2, s1, dict_get_or. rewrite !dict_get_set, String.eqb_refl.
    reflexivity.
Qed.

(** * Further properties of the program *)

(** ** Reading a snapshot back *)

Definition is_eol (e : pchar) : bool := match e with EOL => true | Chr _ => false end.

Definition at_eof (p : parser) : outcome (list (list string)) :=
  if negb (Nat.eqb (List.length (p_field p)) 0) || pstate_beq (p_state p) IN_QUOTED_FIELD
  then Ok [p_fields (parse_save_field p)] else Ok [].

(** [reader_records] on the stream of its parser inputs. *)
Fixpoint run (p : parser) (evs : list pchar) : outcome (list (list string)) :=
  match evs with
  | [] => at_eof p
  | e :: evs' =>
      match parse_process_char p e with
      | Raise m => Raise m
      | Ok p' =>
          if is_eol e && pstate_beq (p_state p') START_RECORD
          then match run parse_reset evs' with
               | Ok rs => Ok (p_fields p' :: rs)
               | Raise m => Raise m
               end
          else run p' evs'
      end
  end.

Definition line_events (lines : list (list ascii)) : list pchar :=
  flat_map (fun ln => (map Chr ln ++ [EOL])%list) lines.

(** The parser inputs of a text split into lines, produced on the fly;
    [b] tells whether the current line is non-empty. *)
Fixpoint se (b : bool) (l : list ascii) : list pchar :=
  match l with
  | [] => if b then [EOL] else []
  | c :: t =>
      if Ascii.eqb c LF then Chr c :: EOL :: se false t
      else if Ascii.eqb c CR then
        match t with
        | c' :: t' =>
            if Ascii.eqb c' LF then Chr c :: Chr c' :: EOL :: se false t'
            else Chr c :: EOL :: se false t
        | [] => [Chr c; EOL]
        end
      else Chr c :: se true t
  end.

Lemma line_events_cons ln lines :
  line_events (ln :: lines) = (map Chr ln ++ EOL :: line_events lines)%list.
Proof. unfold line_events. cbn [flat_map]. now rewrite <- app_assoc. Qed.

Lemma run_line p ln evs :
  run p (map Chr ln ++ EOL :: evs)%list =
  match feed_line p ln with
  | Raise m => Raise m
  | Ok p' =>
      if pstate_beq (p_state p') START_RECORD
      then match run parse_reset evs with
           | Ok rs => Ok (p_fields p' :: rs)
           | Raise m => Raise m
           end
      else run p' evs
  end.
Proof.
  revert p; induction ln as [|c ln IH]; intros p; [reflexivity|].
  cbn [map app run feed_line]. destruct (parse_process_char p (Chr c)); simpl; auto.
Qed.

Lemma reader_records_run p lines : reader_records p lines = run p (line_events lines).
Proof.
  revert p; induction lines as [|ln lines IH]; intros p; [reflexivity|].
  rewrite line_events_cons, run_line. cbn [reader_records].
  destruct (feed_line p ln) as [p'|m]; auto.
  destruct (pstate_beq _ _); now rewrite ?IH.
Qed.

Lemma split_lines_events_n n : forall l cur, List.length l <= n ->
  line_events (split_lines_aux cur l) =
  (map Chr cur ++ se (match cur with [] => false | _ => true end) l)%list.
Proof.
  induction n as [|n IH]; intros l cur Hn.
  - destruct l; [|simpl in Hn; lia]. destruct cur; simpl; auto.
    unfold line_events; simpl. now rewrite app_nil_r.
  - destruct l as [|c t].
    + destruct cur; simpl; auto. unfold line_events; simpl. now rewrite app_nil_r.
    + simpl in Hn. cbn [split_lines_aux se].
      destruct (Ascii.eqb c LF).
      * rewrite line_events_cons, IH by lia. rewrite map_app, <- app_assoc. reflexivity.
      * destruct (Ascii.eqb c CR).
        -- destruct t as [|c' t'].
           ++ unfold line_events; simpl. rewrite map_app; simpl. rewrite app_nil_r, <- app_assoc. reflexivity.
           ++ simpl in Hn. destruct (Ascii.eqb c' LF).
              ** rewrite line_events_cons, IH by lia. rewrite map_app, <- app_assoc. reflexivity.
              ** rewrite line_events_cons, IH by (simpl; lia). rewrite map_app, <- app_assoc.
                 reflexivity.
        -- rewrite IH by lia. rewrite map_app, <- app_assoc. destruct cur; reflexivity.
Qed.

Lemma split_lines_events l : line_events (split_lines l) = se false l.
Proof. apply (split_lines_events_n (List.length l) l []). lia. Qed.

Lemma se_cons b b' c l : se b (c :: l) = se b' (c :: l).
Proof. reflexivity. Qed.


(** The characters of a field written between quotes, quotes doubled. *)
Definition qenc (l : list ascii) : list ascii :=
  flat_map (fun c => if Ascii.eqb c dq then [dq; dq] else [c]) l.

Lemma qenc_cons c cs :
  qenc (c :: cs) = ((if Ascii.eqb c dq then [dq; dq] else [c]) ++ qenc cs)%list.
Proof. reflexivity. Qed.

Lemma fits_step acc c cs :
  fits (acc ++ c :: cs)%list ->
  (N.of_nat (S (List.length acc)) <= field_limit)%N /\ fits ((acc ++ [c]) ++ cs)%list.
Proof. unfold fits. rewrite <- app_assoc. simpl. rewrite !length_app. simpl. lia. Qed.

Lemma add_ok p c :
  (N.of_nat (S (List.length (p_field p))) <= field_limit)%N ->
  parse_add_char p c = Ok (mk_parser (p_state p) (p_fields p) (p_field p ++ [c])%list).
Proof.
  unfold parse_add_char. intros H.
  destruct (N.leb_spec field_limit (N.of_nat (List.length (p_field p)))); [lia|reflexivity].
Qed.

Lemma run_step p e p' evs :
  parse_process_char p e = Ok p' ->
  is_eol e && pstate_beq (p_state p') START_RECORD = false ->
  run p (e :: evs) = run p' evs.
Proof. intros H1 H2. simpl. now rewrite H1, H2. Qed.

Lemma se_dq b t : se b (dq :: t) = Chr dq :: se true t.
Proof. reflexivity. Qed.

Lemma se_comma b t : se b (","%char :: t) = Chr ","%char :: se true t.
Proof. reflexivity. Qed.

Lemma se_crlf b t : se b (CR :: LF :: t) = Chr CR :: Chr LF :: EOL :: se false t.
Proof. reflexivity. Qed.

Lemma se_lf b t : se b (LF :: t) = Chr LF :: EOL :: se false t.
Proof. reflexivity. Qed.

Lemma se_cr_alone b t :
  match t with c' :: _ => Ascii.eqb c' LF = false | [] => True end ->
  se b (CR :: t) = Chr CR :: EOL :: se false t.
Proof. destruct t as [|c' t]; [reflexivity|]. intros H. simpl. now rewrite H. Qed.

Lemma se_plain b c t : is_nl c = false -> se b (c :: t) = Chr c :: se true t.
Proof.
  unfold is_nl. intros H. apply orb_false_iff in H as [H1 H2].
  simpl. now rewrite H1, H2.
Qed.

Lemma is_nl_false c : c <> LF -> c <> CR -> is_nl c = false.
Proof.
  intros H1 H2. unfold is_nl. apply orb_false_iff. split; now apply Ascii.eqb_neq.
Qed.

Lemma pq_dq flds acc :
  parse_process_char (mk_parser IN_QUOTED_FIELD flds acc) (Chr dq)
  = Ok (mk_parser QUOTE_IN_QUOTED_FIELD flds acc).
Proof. reflexivity. Qed.

Lemma pq_eol flds acc :
  parse_process_char (mk_parser IN_QUOTED_FIELD flds acc) EOL
  = Ok (mk_parser IN_QUOTED_FIELD flds acc).
Proof. reflexivity. Qed.

Lemma pq_char flds acc c :
  c <> dq -> (N.of_nat (S (List.length acc)) <= field_limit)%N ->
  parse_process_char (mk_parser IN_QUOTED_FIELD flds acc) (Chr c)
  = Ok (mk_parser IN_QUOTED_FIELD flds (acc ++ [c])%list).
Proof.
  intros H1 H2. unfold parse_process_char. cbn [p_state].
  destruct (Ascii.eqb_spec c dq); [congruence|]. now apply add_ok.
Qed.

Lemma pqq_dq flds acc :
  (N.of_nat (S (List.length acc)) <= field_limit)%N ->
  parse_process_char (mk_parser QUOTE_IN_QUOTED_FIELD flds acc) (Chr dq)
  = Ok (mk_parser IN_QUOTED_FIELD flds (acc ++ [dq])%list).
Proof.
  intros H. unfold parse_process_char. cbn [p_state]. rewrite Ascii.eqb_refl.
  unfold add_then. now rewrite add_ok.
Qed.

Lemma run_quoted_n n : forall cs flds acc b rest, List.length cs <= n ->
  fits (acc ++ cs)%list ->
  run (mk_parser IN_QUOTED_FIELD flds acc) (se b (qenc cs ++ dq :: rest))%list =
  run (mk_parser QUOTE_IN_QUOTED_FIELD flds (acc ++ cs)%list) (se true rest).
Proof.
  induction n as [|n IH]; intros cs flds acc b rest Hn Hf.
  { destruct cs; [|simpl in Hn; lia]. cbn [qenc flat_map app].
    rewrite se_dq, app_nil_r. apply run_step; [apply pq_dq|reflexivity]. }
  destruct cs as [|c cs].
  { cbn [qenc flat_map app].
    rewrite se_dq, app_nil_r. apply run_step; [apply pq_dq|reflexivity]. }
  simpl in Hn. destruct (fits_step _ _ _ Hf) as [Hs Hf'].
  rewrite qenc_cons. destruct (Ascii.eqb_spec c dq) as [->|Hdq].
  - cbn [app]. rewrite se_dq, se_dq.
    rewrite (run_step _ _ _ _ (pq_dq flds acc)) by reflexivity.
    rewrite (run_step _ _ _ _ (pqq_dq flds acc Hs)) by reflexivity.
    rewrite IH by (auto; lia). now rewrite <- app_assoc.
  - cbn [app]. destruct (Ascii.eqb_spec c LF) as [->|HLF].
    + rewrite se_lf.
      rewrite (run_step _ _ _ _ (pq_char flds acc LF Hdq Hs)) by reflexivity.
      rewrite (run_step _ _ _ _ (pq_eol _ _)) by reflexivity.
      rewrite IH by (auto; lia). now rewrite <- app_assoc.
    + destruct (Ascii.eqb_spec c CR) as [->|HCR].
      * destruct cs as [|c' cs'].
        -- cbn [qenc flat_map app]. rewrite se_cr_alone by reflexivity.
           rewrite (run_step _ _ _ _ (pq_char flds acc CR Hdq Hs)) by reflexivity.
           rewrite (run_step _ _ _ _ (pq_eol _ _)) by reflexivity.
           assert (E := IH [] flds (acc ++ [CR])%list false rest).
           cbn [qenc flat_map app] in E. rewrite app_nil_r in E.
           rewrite E; [reflexivity | simpl; lia | exact Hf].
        -- destruct (Ascii.eqb_spec c' LF) as [->|HLF'].
           ++ rewrite qenc_cons. cbn [app].
              assert (HLFdq : LF <> dq) by discriminate.
              replace (if Ascii.eqb LF dq then [dq; dq] else [LF]) with [LF]
                by (destruct (Ascii.eqb_spec LF dq); congruence).
              cbn [app]. rewrite se_crlf.
              destruct (fits_step _ _ _ Hf') as [Hs' Hf''].
              rewrite (run_step _ _ _ _ (pq_char flds acc CR Hdq Hs)) by reflexivity.
              rewrite (run_step _ _ _ _ (pq_char flds _ LF HLFdq Hs')) by reflexivity.
              rewrite (run_step _ _ _ _ (pq_eol _ _)) by reflexivity.
              rewrite IH by (auto; simpl in Hn; lia).
              now rewrite <- !app_assoc.
           ++ rewrite se_cr_alone.
              ** rewrite (run_step _ _ _ _ (pq_char flds acc CR Hdq Hs)) by reflexivity.
                 rewrite (run_step _ _ _ _ (pq_eol _ _)) by reflexivity.
                 rewrite IH by (auto; lia). now rewrite <- app_assoc.
              ** rewrite qenc_cons. destruct (Ascii.eqb_spec c' dq) as [->|_]; simpl.
                 --- reflexivity.
                 --- now destruct (Ascii.eqb_spec c' LF).
      * rewrite se_plain by (now apply is_nl_false).
        rewrite (run_step _ _ _ _ (pq_char flds acc c Hdq Hs)) by reflexivity.
        rewrite IH by (auto; lia). now rewrite <- app_assoc.
Qed.


(** Fields written without quotes. *)
Definition plain (l : list ascii) : bool := forallb (fun c => negb (needs_quote c)) l.

Lemma needs_quote_false c : needs_quote c = false ->
  Ascii.eqb c ","%char = false /\ Ascii.eqb c dq = false /\ is_nl c = false.
Proof.
  unfold needs_quote, is_nl, LF, CR. intros H.
  apply orb_false_iff in H as [H H4]. apply orb_false_iff in H as [H H3].
  apply orb_false_iff in H as [H1 H2].
  rewrite H1, H2, H3, H4. repeat split.
Qed.

Lemma pf_char flds acc c :
  needs_quote c = false -> (N.of_nat (S (List.length acc)) <= field_limit)%N ->
  parse_process_char (mk_parser IN_FIELD flds acc) (Chr c)
  = Ok (mk_parser IN_FIELD flds (acc ++ [c])%list).
Proof.
  intros H Hs. destruct (needs_quote_false c H) as (H1 & H2 & H3).
  unfold parse_process_char; cbn [p_state]. rewrite H3, H1. now apply add_ok.
Qed.

Lemma run_in_field cs : forall flds acc evs, plain cs = true -> fits (acc ++ cs)%list ->
  run (mk_parser IN_FIELD flds acc) (map Chr cs ++ evs)%list
  = run (mk_parser IN_FIELD flds (acc ++ cs)%list) evs.
Proof.
  induction cs as [|c cs IH]; intros flds acc evs Hp Hf.
  - cbn [map app]. now rewrite app_nil_r.
  - simpl in Hp. apply andb_true_iff in Hp as [Hc Hp]. apply negb_true_iff in Hc.
    destruct (fits_step _ _ _ Hf) as [Hs Hf'].
    cbn [map app].
    rewrite (run_step _ _ _ _ (pf_char flds acc c Hc Hs)) by reflexivity.
    rewrite IH by auto. now rewrite <- app_assoc.
Qed.

Lemma se_plain_app cs : forall b c X, plain cs = true ->
  se b (cs ++ c :: X)%list = (map Chr cs ++ se true (c :: X))%list.
Proof.
  induction cs as [|c0 cs IH]; intros b c X Hp; [reflexivity|].
  simpl in Hp. apply andb_true_iff in Hp as [Hc Hp]. apply negb_true_iff in Hc.
  destruct (needs_quote_false c0 Hc) as (_ & _ & Hnl).
  cbn [app map]. rewrite se_plain by exact Hnl. now rewrite IH.
Qed.

(** The states the parser is in right after a field. *)
Definition field_end_state (st : pstate) : Prop :=
  st = START_FIELD \/ st = IN_FIELD \/ st = QUOTE_IN_QUOTED_FIELD.

Lemma run_field_plain flds cs b c X : plain cs = true -> fits cs ->
  exists st, field_end_state st /\
    run (mk_parser START_FIELD flds []) (se b (cs ++ c :: X))%list
    = run (mk_parser st flds cs) (se true (c :: X)).
Proof.
  intros Hp Hf. destruct cs as [|c0 cs].
  - exists START_FIELD. split; [now left|reflexivity].
  - exists IN_FIELD. split; [right; now left|].
    rewrite se_plain_app by exact Hp. cbn [map app].
    simpl in Hp. apply andb_true_iff in Hp as [Hc Hp']. apply negb_true_iff in Hc.
    destruct (needs_quote_false c0 Hc) as (H1 & H2 & H3).
    assert (Hs : (N.of_nat (S (List.length ([] : list ascii))) <= field_limit)%N)
      by (unfold fits in Hf; simpl in *; lia).
    assert (E : parse_process_char (mk_parser START_FIELD flds []) (Chr c0)
                = Ok (mk_parser IN_FIELD flds [c0])).
    { unfold parse_process_char, start_field. cbn [p_state].
      rewrite H3, H2, H1. unfold add_then. rewrite add_ok by exact Hs. reflexivity. }
    rewrite (run_step _ _ _ _ E) by reflexivity.
    rewrite run_in_field; [reflexivity|exact Hp'|exact Hf].
Qed.

Lemma run_field_quoted flds cs b c X : fits cs ->
  run (mk_parser START_FIELD flds []) (se b ((dq :: qenc cs ++ [dq]) ++ c :: X))%list
  = run (mk_parser QUOTE_IN_QUOTED_FIELD flds cs) (se true (c :: X)).
Proof.
  intros Hf. rewrite <- app_comm_cons, <- app_assoc. cbn [app]. rewrite se_dq.
  rewrite (run_step _ _ (mk_parser IN_QUOTED_FIELD flds []) _) by reflexivity.
  rewrite run_quoted_n with (n := List.length cs); auto.
Qed.

Lemma run_after_comma st flds f X : field_end_state st ->
  run (mk_parser st flds f) (se true (","%char :: X))
  = run (mk_parser START_FIELD (flds ++ [string_of_list_ascii f])%list []) (se true X).
Proof.
  intros Hst. rewrite se_comma.
  apply run_step; [|reflexivity].
  destruct Hst as [-> | [-> | ->]]; reflexivity.
Qed.

Lemma run_after_crlf st flds f X : field_end_state st ->
  run (mk_parser st flds f) (se true (CR :: LF :: X))
  = match run parse_reset (se false X) with
    | Ok rs => Ok ((flds ++ [string_of_list_ascii f])%list :: rs)
    | Raise m => Raise m
    end.
Proof.
  intros Hst. rewrite se_crlf.
  rewrite (run_step _ _ (mk_parser EAT_CRNL (flds ++ [string_of_list_ascii f])%list []) _)
    by (destruct Hst as [-> | [-> | ->]]; reflexivity).
  rewrite (run_step _ _ (mk_parser EAT_CRNL (flds ++ [string_of_list_ascii f])%list []) _)
    by reflexivity.
  reflexivity.
Qed.

Lemma list_ascii_app (a b : string) :
  list_ascii_of_string (a ++ b) = (list_ascii_of_string a ++ list_ascii_of_string b)%list.
Proof. induction a as [|c a IH]; simpl; now rewrite ?IH. Qed.

Lemma forallb_negb_existsb {A : Type} (f : A -> bool) (l : list A) :
  forallb (fun x => negb (f x)) l = negb (existsb f l).
Proof. induction l as [|x l IH]; simpl; auto. rewrite IH. now destruct (f x). Qed.

Lemma csv_field_enc f :
  (list_ascii_of_string (csv_field f) = list_ascii_of_string f
   /\ plain (list_ascii_of_string f) = true)
  \/ list_ascii_of_string (csv_field f) = (dq :: qenc (list_ascii_of_string f) ++ [dq])%list.
Proof.
  unfold csv_field, plain. rewrite forallb_negb_existsb.
  destruct (existsb needs_quote (list_ascii_of_string f)).
  - right. now rewrite list_ascii_of_string_of_list_ascii.
  - left. auto.
Qed.

Lemma run_field flds f b c X : fits (list_ascii_of_string f) ->
  exists st, field_end_state st /\
    run (mk_parser START_FIELD flds [])
      (se b (list_ascii_of_string (csv_field f) ++ c :: X))%list
    = run (mk_parser st flds (list_ascii_of_string f)) (se true (c :: X)).
Proof.
  intros Hf. destruct (csv_field_enc f) as [[-> Hp] | ->].
  - now apply run_field_plain.
  - exists QUOTE_IN_QUOTED_FIELD. split; [right; now right|].
    now apply run_field_quoted.
Qed.

Lemma concat_csv_fields f fs :
  String.concat "," (map csv_field (f :: fs))
  = csv_field f ++ match fs with [] => "" | _ => "," ++ String.concat "," (map csv_field fs) end.
Proof. destruct fs; simpl; [now rewrite str_app_nil | reflexivity]. Qed.

Lemma run_fields fs : forall flds b X, fs <> [] ->
  Forall (fun f => fits (list_ascii_of_string f)) fs ->
  run (mk_parser START_FIELD flds [])
    (se b (list_ascii_of_string (String.concat "," (map csv_field fs)) ++ CR :: LF :: X))%list
  = match run parse_reset (se false X) with
    | Ok rs => Ok ((flds ++ fs)%list :: rs)
    | Raise m => Raise m
    end.
Proof.
  induction fs as [|f fs IH]; intros flds b X Hne Hall; [congruence|].
  inversion Hall as [|? ? Hf Hall']; subst.
  rewrite concat_csv_fields, list_ascii_app. destruct fs as [|f2 fs].
  - cbn [list_ascii_of_string]. rewrite app_nil_r.
    destruct (run_field flds f b CR (LF :: X) Hf) as [st [Hst ->]].
    rewrite run_after_crlf by exact Hst. now rewrite string_of_list_ascii_of_string.
  - rewrite list_ascii_app. cbn [list_ascii_of_string app]. rewrite <- app_assoc. cbn [app].
    destruct (run_field flds f b ","%char
                (list_ascii_of_string (String.concat "," (map csv_field (f2 :: fs)))
                 ++ CR :: LF :: X)%list Hf) as [st [Hst ->]].
    rewrite run_after_comma by exact Hst. rewrite string_of_list_ascii_of_string.
    rewrite IH by (auto; discriminate). now rewrite <- app_assoc.
Qed.

Lemma run_reset_start c Y b : is_nl c = false ->
  run parse_reset (se b (c :: Y)) = run (mk_parser START_FIELD [] []) (se b (c :: Y)).
Proof.
  intros H. rewrite se_plain by exact H.
  assert (E : parse_process_char parse_reset (Chr c)
              = parse_process_char (mk_parser START_FIELD [] []) (Chr c)).
  { unfold parse_process_char. cbn [p_state parse_reset]. now rewrite H. }
  cbn [run]. now rewrite E.
Qed.

Lemma record_head fs X : fs <> [] -> fs <> [""] ->
  exists c Y, (list_ascii_of_string (String.concat "," (map csv_field fs)) ++ X)%list = c :: Y
              /\ is_nl c = false.
Proof.
  intros H1 H2. destruct fs as [|f fs]; [congruence|].
  rewrite concat_csv_fields, list_ascii_app, <- app_assoc.
  destruct (csv_field_enc f) as [[-> Hp] | ->].
  - destruct (list_ascii_of_string f) as [|c0 cs] eqn:Ef.
    + destruct f; [|discriminate]. destruct fs as [|f2 fs]; [congruence|].
      cbn [app list_ascii_of_string String.append]. eauto.
    + simpl in Hp. apply andb_true_iff in Hp as [Hc _]. apply negb_true_iff in Hc.
      destruct (needs_quote_false c0 Hc) as (_ & _ & H3). cbn [app]. eauto.
  - cbn [app]. exists dq. eauto.
Qed.

Lemma run_record fs X : fs <> [] ->
  Forall (fun f => fits (list_ascii_of_string f)) fs ->
  run parse_reset (se false (list_ascii_of_string (csv_line fs) ++ X))%list
  = match run parse_reset (se false X) with
    | Ok rs => Ok (fs :: rs)
    | Raise m => Raise m
    end.
Proof.
  intros Hne Hall.
  assert (Hsp : fs = [""] \/ fs <> [""]).
  { destruct fs as [|[|c f] [|f2 fs]]; auto; right; discriminate. }
  destruct Hsp as [->|Hsp].
  - unfold csv_line. cbn [list_ascii_of_string app crlf].
    rewrite se_dq.
    rewrite (run_step _ _ (mk_parser IN_QUOTED_FIELD [] []) _) by reflexivity.
    rewrite se_dq.
    rewrite (run_step _ _ (mk_parser QUOTE_IN_QUOTED_FIELD [] []) _) by reflexivity.
    apply (run_after_crlf QUOTE_IN_QUOTED_FIELD [] [] X). right; now right.
  - assert (Hl : csv_line fs = String.concat "," (map csv_field fs) ++ crlf).
    { unfold csv_line. destruct fs as [|[|c f] [|f2 fs]]; auto; congruence. }
    rewrite Hl, list_ascii_app, <- app_assoc.
    change (list_ascii_of_string crlf) with [CR; LF]. cbn [app].
    destruct (record_head fs (CR :: LF :: X) Hne Hsp) as [c [Y [E Hc]]].
    rewrite E, run_reset_start by exact Hc. rewrite <- E.
    now rewrite run_fields.
Qed.


(** ** Writing a snapshot, then reading it *)

Lemma dict_set_get_same {V : Type} (d : list (string * V)) (k : string) (v : V) :
  dict_get d k = Some v -> dict_set d k v = d.
Proof.
  induction d as [|[k' v'] d IH]; simpl; [discriminate|].
  destruct (String.eqb_spec k k') as [->|Hne]; [now intros [= ->]|].
  intros H. now rewrite IH.
Qed.

Lemma dict_set_set {V : Type} (d : list (string * V)) (k : string) (v v' : V) :
  dict_set (dict_set d k v) k v' = dict_set d k v'.
Proof.
  induction d as [|[k' x] d IH]; simpl; [now rewrite String.eqb_refl|].
  destruct (String.eqb_spec k k') as [->|Hne]; simpl; [now rewrite String.eqb_refl|].
  rewrite (proj2 (String.eqb_neq _ _) Hne). now rewrite IH.
Qed.

Lemma dict_get_or_set {V : Type} (d : list (string * V)) (k : string) (v dflt : V) :
  dict_get_or (dict_set d k v) k dflt = v.
Proof. unfold dict_get_or. now rewrite dict_get_set, String.eqb_refl. Qed.

Lemma dict_get_del {V : Type} (d : list (string * V)) (k q : string) :
  q <> k -> dict_get (dict_del d k) q = dict_get d q.
Proof.
  intros Hq. induction d as [|[k' v] d IH]; simpl; auto.
  destruct (String.eqb_spec k k') as [->|Hne]; simpl.
  - now rewrite (proj2 (String.eqb_neq _ _) Hq).
  - now rewrite IH.
Qed.

Lemma dict_get_del_same {V : Type} (d : list (string * V)) (k : string) :
  NoDup (dict_keys d) -> dict_get (dict_del d k) k = None.
Proof.
  induction d as [|[k' v] d IH]; simpl; auto. intros Hnd.
  inversion Hnd as [|? ? Hk' Hnd']; subst.
  destruct (String.eqb_spec k k') as [->|Hne].
  - now apply dict_get_none.
  - simpl. rewrite (proj2 (String.eqb_neq _ _) Hne). now apply IH.
Qed.

Lemma dict_to_list_sub (K : list string) (r : row) :
  (forall k, In k (dict_keys r) -> In k K) ->
  dict_to_list K r = Ok (map (fun k => dict_get_or r k "") K).
Proof.
  intros H. unfold dict_to_list.
  destruct (existsb _ (dict_keys r)) eqn:E; auto.
  apply existsb_exists in E as [k [Hk E]]. apply negb_true_iff in E.
  assert (existsb (String.eqb k) K = true)
    by (apply existsb_exists; exists k; split; auto; apply String.eqb_refl).
  congruence.
Qed.

Lemma writerows_ok p K rows : forall s c,
  (forall r, In r rows -> forall k, In k (dict_keys r) -> In k K) ->
  dict_get s p = Some c ->
  writerows p K rows s = (Ok tt, dict_set s p (c ++ csv_rows K rows)).
Proof.
  induction rows as [|r rows IH]; intros s c Hk Hc.
  - cbn [writerows csv_rows fold_right]. rewrite str_app_nil.
    now rewrite dict_set_get_same.
  - cbn [writerows]. rewrite dict_to_list_sub by (apply Hk; now left).
    set (L := csv_line (map (fun k => dict_get_or r k "") K)).
    rewrite (io_bind_ok _ _ s tt (dict_set s p (c ++ L)))
      by (unfold file_write, dict_get_or; now rewrite Hc).
    rewrite (IH _ (c ++ L)).
    + rewrite dict_set_set. unfold csv_rows. cbn [fold_right]. fold (csv_rows K rows).
      now rewrite str_app_assoc.
    + intros r' Hr'. apply Hk. now right.
    + now rewrite dict_get_set, String.eqb_refl.
Qed.

Lemma write_csv_atomic_state path r0 rest s :
  (forall r, In r (r0 :: rest) -> forall k, In k (dict_keys r) -> In k (dict_keys r0)) ->
  write_csv_atomic path (r0 :: rest) s =
  (Ok tt, dict_set (dict_del (dict_set s (tmp_path path)
                                (csv_line (dict_keys r0) ++ csv_rows (dict_keys r0) (r0 :: rest)))
                             (tmp_path path))
                   path (csv_line (dict_keys r0) ++ csv_rows (dict_keys r0) (r0 :: rest))).
Proof.
  intros Hk. unfold write_csv_atomic. cbv beta iota zeta.
  set (tmp := tmp_path path). set (K := dict_keys r0).
  set (content := csv_line K ++ csv_rows K (r0 :: rest)).
  rewrite (io_bind_ok _ _ s tt (dict_set s tmp "")) by reflexivity.
  rewrite (io_bind_ok _ _ _ tt (dict_set (dict_set s tmp "") tmp (csv_line K)))
    by (unfold file_write; now rewrite dict_get_or_set).
  rewrite (io_bind_ok _ _ _ tt (dict_set s tmp content)).
  - unfold file_replace. now rewrite dict_get_set, String.eqb_refl.
  - rewrite (writerows_ok tmp K (r0 :: rest) _ (csv_line K)); auto.
    + now rewrite !dict_set_set.
    + now rewrite dict_get_set, String.eqb_refl.
Qed.

Lemma fits_nil : fits [].
Proof. unfold fits. simpl. lia. Qed.

Lemma run_rows K rows : K <> [] ->
  Forall (fun k => fits (list_ascii_of_string k)) K ->
  (forall r, In r rows -> Forall (fun kv => fits (list_ascii_of_string (snd kv))) r) ->
  run parse_reset (se false (list_ascii_of_string (csv_rows K rows)))
  = Ok (map (fun r => map (fun k => dict_get_or r k "") K) rows).
Proof.
  intros HK HfK. induction rows as [|r rows IH]; intros Hf; [reflexivity|].
  unfold csv_rows. cbn [fold_right]. fold (csv_rows K rows).
  rewrite list_ascii_app, run_record.
  - rewrite IH by (intros r' Hr'; apply Hf; now right). reflexivity.
  - destruct K; [congruence|discriminate].
  - apply Forall_forall. intros v Hv. apply in_map_iff in Hv as [k [<- _]].
    unfold dict_get_or. destruct (dict_get r k) as [v|] eqn:E; [|apply fits_nil].
    apply dict_get_some_In in E.
    exact (proj1 (Forall_forall _ _) (Hf r (or_introl eq_refl)) _ E).
Qed.

Lemma pkey_eqb_eq (a b : pkey) : pkey_eqb a b = true <-> a = b.
Proof.
  destruct a as [x|], b as [y|]; simpl; try (split; congruence).
  rewrite String.eqb_eq. split; congruence.
Qed.

Lemma pdict_set_fresh (d : prow) (k : pkey) (v : pyval) :
  ~ In k (map fst d) -> pdict_set d k v = (d ++ [(k, v)])%list.
Proof.
  induction d as [|[k' v'] d IH]; simpl; auto. intros H.
  destruct (pkey_eqb k k') eqn:E.
  - apply pkey_eqb_eq in E. subst. tauto.
  - rewrite IH; auto.
Qed.

Lemma dict_zip_fold (K : list string) (g : string -> string) : forall d,
  NoDup K -> (forall k, In k K -> ~ In (Some k) (map fst d)) ->
  fold_left (fun d kv => pdict_set d (Some (fst kv)) (PStr (snd kv)))
    (combine K (map g K)) d
  = (d ++ map (fun k => (Some k, PStr (g k))) K)%list.
Proof.
  induction K as [|k K IH]; intros d Hnd Hf; simpl; [now rewrite app_nil_r|].
  inversion Hnd as [|? ? Hk HndK]; subst.
  rewrite pdict_set_fresh by (apply Hf; now left).
  rewrite IH; auto.
  - now rewrite <- app_assoc.
  - intros k' Hk'. rewrite map_app. simpl. intros Hin.
    apply in_app_or in Hin as [Hin|[Heq|[]]].
    + exact (Hf k' (or_intror Hk') Hin).
    + injection Heq as ->. contradiction.
Qed.

Lemma dict_reader_row_full (K : list string) (r : row) :
  NoDup K ->
  dict_reader_row K (map (fun k => dict_get_or r k "") K) = padded_row K r.
Proof.
  intros Hnd. unfold dict_reader_row, dict_zip. cbv zeta.
  rewrite length_map, Nat.ltb_irrefl.
  apply (dict_zip_fold K (fun k => dict_get_or r k "") []); auto.
Qed.

Lemma csv_line_nonempty (fs : list string) (X : string) :
  exists a t, csv_line fs ++ X = String a t.
Proof.
  assert (H : forall u, exists a t, (u ++ crlf) ++ X = String a t)
    by (intros u; destruct u; simpl; eauto).
  unfold csv_line. destruct fs as [|[|c f] [|f2 fs]]; try apply H. simpl. eauto.
Qed.

Lemma read_csv_document path s K rows :
  K <> [] -> NoDup K ->
  Forall (fun k => fits (list_ascii_of_string k)) K ->
  (forall r, In r rows -> Forall (fun kv => fits (list_ascii_of_string (snd kv))) r) ->
  dict_get s path = Some (csv_line K ++ csv_rows K rows) ->
  read_csv_if_exists path s = (Ok (map (padded_row K) rows), s).
Proof.
  intros HK Hnd HfK Hf Hget. unfold read_csv_if_exists. rewrite Hget.
  destruct (csv_line_nonempty K (csv_rows K rows)) as [a [t Eat]].
  rewrite Eat. cbv beta iota. rewrite <- Eat.
  rewrite reader_records_run, split_lines_events, list_ascii_app, run_record; auto.
  rewrite run_rows; auto. cbn [dict_reader].
  assert (Hfl : forall l : list row,
             filter (fun r => match r with [] => false | _ => true end)
               (map (fun r => map (fun k => dict_get_or r k "") K) l)
             = map (fun r => map (fun k => dict_get_or r k "") K) l).
  { destruct K as [|k K']; [congruence|].
    induction l as [|r l IH]; simpl; [reflexivity|]. f_equal. exact IH. }
  rewrite Hfl, map_map. f_equal. f_equal. apply map_ext. intros r.
  now apply dict_reader_row_full.
Qed.

Lemma padded_row_own (r : row) :
  NoDup (dict_keys r) -> padded_row (dict_keys r) r = py_row r.
Proof.
  intros Hnd. unfold padded_row, py_row, dict_keys. rewrite map_map.
  apply map_ext_in. intros [k v] Hin. cbn [fst snd]. unfold dict_get_or.
  now rewrite (proj2 (dict_get_In r k v Hnd) Hin).
Qed.

(** ** Extra properties *)

(** [write_csv_atomic(path, rows)] with a nonempty [rows] whose keys all
    appear among the keys of [rows[0]]: it succeeds, [path] then holds the
    header line and one line per row, every other file is left as it was,
    and the temporary file is gone. *)
Theorem write_csv_atomic_effect path r0 rest s :
  (forall r, In r (r0 :: rest) -> forall k, In k (dict_keys r) -> In k (dict_keys r0)) ->
  NoDup (dict_keys s) ->
  exists s', write_csv_atomic path (r0 :: rest) s = (Ok tt, s')
    /\ dict_get s' path = Some (csv_line (dict_keys r0) ++ csv_rows (dict_keys r0) (r0 :: rest))
    /\ dict_get s' (tmp_path path) = None
    /\ (forall q, q <> path -> q <> tmp_path path -> dict_get s' q = dict_get s q).
Proof.
  intros Hk Hnd. eexists. split; [apply write_csv_atomic_state; exact Hk|].
  split; [|split].
  - now rewrite dict_get_set, String.eqb_refl.
  - rewrite dict_get_set.
    destruct (String.eqb_spec (tmp_path path) path) as [E|_];
      [exfalso; exact (tmp_path_neq _ E)|].
    apply dict_get_del_same. now apply dict_set_nodup.
  - intros q Hq Ht. rewrite dict_get_set.
    destruct (String.eqb_spec q path) as [E|_]; [contradiction|].
    rewrite dict_get_del by exact Ht. rewrite dict_get_set.
    destruct (String.eqb_spec q (tmp_path path)) as [E|_]; [contradiction|reflexivity].
Qed.

(** Writing a nonempty list of rows with [write_csv_atomic] and reading the
    file back with [read_csv_if_exists] gives one dict per row, keyed by the
    keys of the first row in their order, a missing key read as [""]. It
    holds when the first row has at least one key, every row's keys are
    among them, and no key or value is longer than the reader's field limit. *)
Theorem write_then_read path r0 rest s :
  r0 <> [] -> NoDup (dict_keys r0) ->
  (forall r, In r (r0 :: rest) -> forall k, In k (dict_keys r) -> In k (dict_keys r0)) ->
  Forall (fun k => fits (list_ascii_of_string k)) (dict_keys r0) ->
  (forall r, In r (r0 :: rest) -> Forall (fun kv => fits (list_ascii_of_string (snd kv))) r) ->
  exists s', write_csv_atomic path (r0 :: rest) s = (Ok tt, s')
    /\ read_csv_if_exists path s'
       = (Ok (map (padded_row (dict_keys r0)) (r0 :: rest)), s').
Proof.
  intros Hr0 Hnd Hk HfK Hf. eexists. split; [apply write_csv_atomic_state; exact Hk|].
  apply read_csv_document; auto.
  - destruct r0; [congruence|discriminate].
  - now rewrite dict_get_set, String.eqb_refl.
Qed.

Lemma write_read_same_keys path r0 rest s :
  r0 <> [] -> NoDup (dict_keys r0) ->
  (forall r, In r rest -> dict_keys r = dict_keys r0) ->
  Forall (fun k => fits (list_ascii_of_string k)) (dict_keys r0) ->
  (forall r, In r (r0 :: rest) -> Forall (fun kv => fits (list_ascii_of_string (snd kv))) r) ->
  exists s', write_csv_atomic path (r0 :: rest) s = (Ok tt, s')
    /\ read_csv_if_exists path s' = (Ok (map py_row (r0 :: rest)), s').
Proof.
  intros Hr0 Hnd Hsame HfK Hf.
  assert (Hall : forall r, In r (r0 :: rest) -> dict_keys r = dict_keys r0)
    by (intros r [<- | Hr]; auto).
  eexists. split; [apply write_csv_atomic_state|].
  - intros r Hr k Hin. now rewrite <- (Hall r Hr).
  - replace (map py_row (r0 :: rest)) with (map (padded_row (dict_keys r0)) (r0 :: rest)).
    + apply read_csv_document; auto.
      * destruct r0; [congruence|discriminate].
      * now rewrite dict_get_set, String.eqb_refl.
    + apply map_ext_in. intros r Hr. rewrite <- (Hall r Hr).
      apply padded_row_own. now rewrite (Hall r Hr).
Qed.

(** When every row has the same keys in the same order, reading back what
    [write_csv_atomic] wrote gives exactly the rows written, with every value
    a string. *)
Theorem write_then_read_exact path r0 rest s :
  r0 <> [] -> NoDup (dict_keys r0) ->
  (forall r, In r rest -> dict_keys r = dict_keys r0) ->
  Forall (fun k => fits (list_ascii_of_string k)) (dict_keys r0) ->
  (forall r, In r (r0 :: rest) -> Forall (fun kv => fits (list_ascii_of_string (snd kv))) r) ->
  exists s', write_csv_atomic path (r0 :: rest) s = (Ok tt, s')
    /\ read_csv_if_exists path s' = (Ok (map py_row (r0 :: rest)), s').
Proof. exact (write_read_same_keys path r0 rest s). Qed.

(** ** Records of the scraped table *)

Lemma fold_dict_set_keys {V : Type} (l : list (string * V)) (acc : list (string * V)) :
  dict_keys (fold_left (fun d hv => dict_set d (fst hv) (snd hv)) l acc) =
  fold_left (fun acc k => if existsb (String.eqb k) acc then acc else (acc ++ [k])%list)
    (map fst l) (dict_keys acc).
Proof.
  revert acc. induction l as [|[k v] l IH]; intros acc; simpl; auto.
  rewrite IH, dict_set_keys. reflexivity.
Qed.

Lemma fit_row_length (n : nat) (r : list string) : List.length (fit_row n r) = n.
Proof.
  unfold fit_row.
  destruct (Nat.ltb_spec (List.length r) n); [rewrite length_app, repeat_length; lia|].
  destruct (Nat.ltb_spec n (List.length r)); [apply firstn_length_le; lia | lia].
Qed.

Lemma fit_row_nth (n : nat) (r : list string) (i : nat) :
  i < n -> nth i (fit_row n r) "" = nth i r "".
Proof.
  intros Hi. unfold fit_row.
  destruct (Nat.ltb_spec (List.length r) n).
  - destruct (Nat.lt_ge_cases i (List.length r)).
    + now rewrite app_nth1.
    + rewrite app_nth2 by lia. rewrite nth_repeat. symmetry. now apply nth_overflow.
  - destruct (Nat.ltb_spec n (List.length r)); [|reflexivity].
    now rewrite nth_firstn, (proj2 (Nat.ltb_lt _ _) Hi).
Qed.

Lemma fit_row_In (n : nat) (r : list string) (v : string) :
  In v (fit_row n r) -> In v r \/ v = "".
Proof.
  unfold fit_row.
  destruct (Nat.ltb_spec (List.length r) n).
  - rewrite in_app_iff. intros [Hv | Hv]; [now left|]. right. now apply repeat_spec in Hv.
  - destruct (Nat.ltb_spec n (List.length r)); [|now left].
    intros Hv. left. rewrite <- (firstn_skipn n r). apply in_or_app. now left.
Qed.

Lemma map_fst_combine {A B : Type} (l1 : list A) (l2 : list B) :
  List.length l1 = List.length l2 -> map fst (combine l1 l2) = l1.
Proof.
  revert l2. induction l1 as [|a l1 IH]; intros [|b l2] H; simpl in *; try lia; auto.
  f_equal. apply IH. lia.
Qed.

Lemma record_of_keys (headers r : list string) :
  dict_keys (record_of headers r) = first_occ headers.
Proof.
  unfold record_of, first_occ. rewrite fold_dict_set_keys, map_fst_combine; auto.
  now rewrite fit_row_length.
Qed.

Lemma record_of_values (headers r : list string) :
  Forall (fun kv => In (snd kv) r \/ snd kv = "") (record_of headers r).
Proof.
  unfold record_of.
  assert (G : forall l acc,
    (forall hv, In hv l -> In (snd hv) r \/ snd hv = "") ->
    Forall (fun kv => In (snd kv) r \/ snd kv = "") acc ->
    Forall (fun kv => In (snd kv) r \/ snd kv = "")
      (fold_left (fun d hv => dict_set d (fst hv) (snd hv)) l acc)).
  { induction l as [|hv l IH]; intros acc Hl Hacc; simpl; auto.
    apply IH; [intros; apply Hl; now right|].
    apply (dict_set_Forall (fun _ v => In v r \/ v = "")); auto. apply Hl. now left. }
  apply G; [|constructor].
  intros [h v] Hin. simpl. apply in_combine_r in Hin. now apply fit_row_In in Hin.
Qed.

Lemma record_of_nodup_eq (headers r : list string) :
  NoDup headers -> record_of headers r = combine headers (fit_row (List.length headers) r).
Proof.
  intros Hnd. unfold record_of.
  rewrite (fold_set_fresh_gen fst snd); simpl.
  - rewrite map_ext with (g := fun x => x) by (intros [a b]; reflexivity).
    now rewrite map_id.
  - rewrite map_fst_combine; auto. now rewrite fit_row_length.
Qed.

Lemma build_records_keys (headers : list string) (rows : list (list string)) :
  Forall (fun r => dict_keys r = first_occ headers) (build_records headers rows).
Proof.
  apply Forall_forall. intros r Hr. unfold build_records in Hr.
  apply in_map_iff in Hr as [x [<- _]]. apply record_of_keys.
Qed.

Lemma run_rows_blank (rows : list row) :
  run parse_reset (se false (list_ascii_of_string (csv_rows [] rows)))
  = Ok (map (fun _ => []) rows).
Proof.
  induction rows as [|r rows IH]; [reflexivity|].
  unfold csv_rows. cbn [fold_right]. fold (csv_rows [] rows).
  change (list_ascii_of_string (csv_line (map (fun k => dict_get_or r k "") []) ++ csv_rows [] rows))
    with (CR :: LF :: list_ascii_of_string (csv_rows [] rows)).
  rewrite se_crlf. simpl. rewrite IH. reflexivity.
Qed.

Lemma record_of_nil (r : list string) : record_of [] r = [].
Proof. reflexivity. Qed.

(** [scrape_table_rows] ends in one record per scraped row, each keyed by
    the distinct header labels in their order of first occurrence, and
    raises the transient-failure [RuntimeError] exactly when the table
    gave no rows. *)
Theorem scrape_result_records (headers : list string) (rows : list (list string)) :
  match scrape_result headers rows with
  | Ok (h, records) =>
      h = headers /\ rows <> [] /\ List.length records = List.length rows
      /\ Forall (fun r => dict_keys r = first_occ headers) records
  | Raise e =>
      rows = []
      /\ e = "RuntimeError: Table has 0 rows after wait; treating as transient load failure."
  end.
Proof.
  unfold scrape_result. destruct rows as [|x rows]; [split; reflexivity|].
  pose proof (build_records_keys headers (x :: rows)) as Hk.
  unfold build_records in *. cbn [map] in *.
  split; [reflexivity|]. split; [discriminate|]. split; [|exact Hk].
  simpl. now rewrite length_map.
Qed.

(** When the header labels are distinct, the record built from a scraped
    row has exactly the labels as keys, in order, and holds under the
    [i]-th label the [i]-th cell of the row, or [""] when the row is
    shorter; so cells beyond the last label are dropped. *)
Theorem record_of_cell (headers r : list string) :
  NoDup headers ->
  dict_keys (record_of headers r) = headers /\
  forall i, i < List.length headers ->
    dict_get (record_of headers r) (nth i headers "") = Some (nth i r "").
Proof.
  intros Hnd. split.
  - rewrite record_of_nodup_eq by exact Hnd. unfold dict_keys.
    rewrite map_fst_combine; auto. now rewrite fit_row_length.
  - intros i Hi. rewrite record_of_nodup_eq by exact Hnd.
    assert (Hl : List.length headers = List.length (fit_row (List.length headers) r))
      by now rewrite fit_row_length.
    apply dict_get_In.
    + unfold dict_keys. now rewrite map_fst_combine.
    + rewrite <- (fit_row_nth (List.length headers) r i Hi).
      rewrite <- combine_nth by exact Hl. apply nth_In.
      rewrite length_combine, <- Hl, Nat.min_id. exact Hi.
Qed.

(** The records of a scraped table with at least one header label, written
    as a snapshot by [write_csv_atomic], read back with [read_csv_if_exists]
    as exactly the same dicts, when no label or cell exceeds the reader's
    field limit. *)
Theorem scrape_snapshot_round_trip (path : string) (headers : list string)
    (rows : list (list string)) (s : fs) :
  headers <> [] -> rows <> [] ->
  Forall (fun h => fits (list_ascii_of_string h)) headers ->
  Forall (Forall (fun v => fits (list_ascii_of_string v))) rows ->
  exists s', write_csv_atomic path (build_records headers rows) s = (Ok tt, s')
    /\ read_csv_if_exists path s' = (Ok (map py_row (build_records headers rows)), s').
Proof.
  intros Hh Hr HfH HfR. destruct rows as [|x rows]; [congruence|].
  unfold build_records. cbn [map].
  apply write_read_same_keys.
  - intros E. destruct headers as [|h hs]; [congruence|].
    assert (Hin : In h (dict_keys (record_of (h :: hs) x)))
      by (rewrite record_of_keys; apply first_occ_In; now left).
    rewrite E in Hin. destruct Hin.
  - rewrite record_of_keys. apply first_occ_nodup.
  - intros r Hin. apply in_map_iff in Hin as [y [<- _]]. now rewrite !record_of_keys.
  - rewrite record_of_keys. rewrite Forall_forall in HfH |- *.
    intros k Hk. apply HfH. now apply first_occ_In.
  - intros r Hin. assert (Hy : exists y, r = record_of headers y /\ In y (x :: rows)).
    { destruct Hin as [<- | Hin]; [exists x; split; [reflexivity | now left]|].
      apply in_map_iff in Hin as [y [<- Hy]]. exists y. split; [reflexivity | now right]. }
    destruct Hy as [y [-> Hy]].
    pose proof (record_of_values headers y) as Hv. rewrite Forall_forall in Hv |- *.
    intros kv Hkv. destruct (Hv kv Hkv) as [Hin' | ->]; [|exact fits_nil].
    rewrite Forall_forall in HfR. specialize (HfR y Hy). rewrite Forall_forall in HfR.
    now apply HfR.
Qed.

(** A scraped table without header labels gives records that are all empty
    dicts; [write_csv_atomic] writes them as blank lines, and
    [read_csv_if_exists] reads that snapshot back as no rows at all. *)
Theorem scrape_no_headers_snapshot_empty (path : string) (rows : list (list string)) (s : fs) :
  rows <> [] ->
  exists s', write_csv_atomic path (build_records [] rows) s = (Ok tt, s')
    /\ read_csv_if_exists path s' = (Ok [], s').
Proof.
  intros Hr. destruct rows as [|x rows]; [congruence|].
  unfold build_records. cbn [map]. rewrite record_of_nil.
  eexists. split.
  - apply write_csv_atomic_state. intros r Hin k Hk.
    destruct Hin as [<- | Hin]; [exact Hk|].
    apply in_map_iff in Hin as [y [<- _]]. destruct Hk.
  - unfold read_csv_if_exists. rewrite dict_get_set, String.eqb_refl.
    change (csv_line (dict_keys []) ++ csv_rows (dict_keys []) ([] :: map (record_of []) rows))
      with (csv_rows [] ([] :: [] :: map (record_of []) rows)).
    change (csv_rows [] ([] :: [] :: map (record_of []) rows))
      with (String CR (String LF (csv_rows [] ([] :: map (record_of []) rows)))).
    cbv beta iota.
    change (String CR (String LF (csv_rows [] ([] :: map (record_of []) rows))))
      with (csv_rows [] ([] :: [] :: map (record_of []) rows)).
    rewrite reader_records_run, split_lines_events, run_rows_blank.
    cbn [map dict_reader]. f_equal. f_equal. clear Hr.
    induction rows as [|y rows IH]; [reflexivity|]. exact IH.
Qed.

(** ** Retries, clicks, recipients and the digest *)

(** [scrape_table_rows] makes one to three attempts, numbered from 1, and
    stops at the first that succeeds, or at the first failed attempt whose
    back-off wait raises.  Its outcome is then the successful attempt's
    result, the back-off wait's exception, or, after three failed attempts,
    the third attempt's exception; never the "Unknown scrape failure". *)
Theorem scrape_table_rows_attempts {A : Type} (attempt : nat -> outcome A)
    (backoff : nat -> option string) :
  exists k, 1 <= k <= MAX_SCRAPE_RETRIES
    /\ snd (scrape_table_rows attempt backoff) = seq 1 k
    /\ (forall i, 1 <= i < k -> (exists e, attempt i = Raise e) /\ backoff i = None)
    /\ ((exists x, attempt k = Ok x /\ fst (scrape_table_rows attempt backoff) = Ok x)
        \/ (k = MAX_SCRAPE_RETRIES /\ exists e, attempt k = Raise e
              /\ fst (scrape_table_rows attempt backoff) = Raise e)
        \/ (k < MAX_SCRAPE_RETRIES /\ (exists e, attempt k = Raise e)
              /\ exists e', backoff k = Some e'
              /\ fst (scrape_table_rows attempt backoff) = Raise e')).
Proof.
  unfold scrape_table_rows, MAX_SCRAPE_RETRIES. simpl.
  destruct (attempt 1) as [x1|e1] eqn:E1.
  { exists 1. simpl. split; [lia|]. split; [reflexivity|].
    split; [intros i Hi; lia|]. left. eauto. }
  destruct (backoff 1) as [b1|] eqn:B1.
  { exists 1. simpl. split; [lia|]. split; [reflexivity|].
    split; [intros i Hi; lia|]. right; right. split; [lia|]. eauto. }
  destruct (attempt 2) as [x2|e2] eqn:E2.
  { exists 2. simpl. split; [lia|]. split; [reflexivity|].
    split; [|left; eauto].
    intros i Hi. replace i with 1 by lia. eauto. }
  destruct (backoff 2) as [b2|] eqn:B2.
  { exists 2. simpl. split; [lia|]. split; [reflexivity|].
    split; [|right; right; split; [lia|]; eauto].
    intros i Hi. replace i with 1 by lia. eauto. }
  assert (Hbefore : forall i, 1 <= i < 3 -> (exists e, attempt i = Raise e) /\ backoff i = None).
  { intros i Hi. assert (Hi' : i = 1 \/ i = 2) by lia.
    destruct Hi' as [-> | ->]; eauto. }
  exists 3. destruct (attempt 3) as [x3|e3] eqn:E3; simpl;
    (split; [lia|]); (split; [reflexivity|]); (split; [exact Hbefore|]).
  - left. eauto.
  - right; left. eauto.
Qed.

Lemma expand_passes_bound (count_at : nat -> option nat) (cap : nat) (passes : list nat)
    (prev : option nat) :
  List.length (expand_passes count_at cap passes prev) <= List.length passes /\
  Forall (fun n => n <= cap) (expand_passes count_at cap passes prev).
Proof.
  revert prev. induction passes as [|i passes IH]; intros prev; simpl; [split; auto|].
  destruct (count_at i) as [count|]; [|simpl; split; [lia | constructor]].
  destruct ((count =? 0) || count_eqb prev count); [simpl; split; [lia | constructor]|].
  destruct (IH (Some count)) as [Hl Hf]. simpl. split; [lia|].
  constructor; [apply Nat.le_min_r | exact Hf].
Qed.

Lemma list_sum_bound (l : list nat) (cap : nat) :
  Forall (fun n => n <= cap) l -> list_sum l <= List.length l * cap.
Proof. induction 1; simpl; lia. Qed.

(** [expand_read_more_safely] runs at most [max_passes] passes of at most
    [per_pass_cap] clicks each: at most [max_passes * per_pass_cap] clicks
    in all, whatever the page reports. *)
Theorem expand_read_more_safely_clicks (count_at : nat -> option nat)
    (max_passes per_pass_cap : nat) :
  List.length (expand_read_more_safely count_at max_passes per_pass_cap) <= max_passes /\
  Forall (fun n => n <= per_pass_cap) (expand_read_more_safely count_at max_passes per_pass_cap) /\
  list_sum (expand_read_more_safely count_at max_passes per_pass_cap)
    <= max_passes * per_pass_cap.
Proof.
  unfold expand_read_more_safely.
  destruct (expand_passes_bound count_at per_pass_cap (seq 0 max_passes) None) as [Hl Hf].
  rewrite length_seq in Hl. split; [exact Hl|]. split; [exact Hf|].
  pose proof (list_sum_bound _ _ Hf). nia.
Qed.

Lemma strip_In (l : list ascii) (c : ascii) : In c (strip l) -> In c l.
Proof.
  unfold strip. intros H.
  destruct (rstrip_split (lstrip l)) as [suf [Hs _]].
  destruct (lstrip_split l) as [pre [Hp _]].
  rewrite Hp. apply in_or_app. right. rewrite Hs. apply in_or_app. now left.
Qed.

Lemma split_on_aux_sep (sep : ascii) (l cur : list ascii) (x : string) :
  ~ In sep cur -> In x (split_on_aux sep cur l) -> ~ In sep (list_ascii_of_string x).
Proof.
  revert cur. induction l as [|c t IH]; intros cur Hcur Hx; simpl in Hx.
  - destruct Hx as [<- | []]. now rewrite list_ascii_of_string_of_list_ascii.
  - destruct (Ascii.eqb_spec c sep) as [-> | Hne].
    + destruct Hx as [<- | Hx]; [now rewrite list_ascii_of_string_of_list_ascii|].
      exact (IH [] (fun H => H) Hx).
    + apply (IH (cur ++ [c])%list); [|exact Hx].
      rewrite in_app_iff. intros [H | [H | []]]; [exact (Hcur H) | congruence].
Qed.

(** Every address parsed from [EMAIL_RECIPIENTS] is non-empty, carries no
    surrounding whitespace and contains no comma. *)
Theorem parse_recipients_clean (env : string) :
  Forall (fun x => x <> "" /\ strip_str x = x /\ ~ In ","%char (list_ascii_of_string x))
    (parse_recipients env).
Proof.
  apply Forall_forall. intros x Hx. unfold parse_recipients in Hx.
  apply in_flat_map in Hx as [y [Hy Hx]].
  destruct (strip_str y) as [|a t] eqn:E; [destruct Hx|].
  destruct Hx as [<- | []]. split; [discriminate|]. rewrite <- E. split.
  - unfold strip_str. now rewrite list_ascii_of_string_of_list_ascii, strip_idem.
  - unfold strip_str. rewrite list_ascii_of_string_of_list_ascii. intros Hc.
    apply strip_In in Hc. revert Hc. unfold py_split in Hy.
    exact (split_on_aux_sep _ _ [] y (fun H => H) Hy).
Qed.

Lemma text_parts_shape (pnl : list (string * list string)) :
  text_parts pnl = [] \/ exists a b rest, text_parts pnl = a :: b :: rest.
Proof.
  induction pnl as [|[name lines] pnl IH]; [now left|].
  unfold text_parts. cbn [flat_map]. fold (text_parts pnl). cbn [snd fst].
  destruct lines as [|l ls]; [exact IH|]. right. do 3 eexists. reflexivity.
Qed.

Lemma text_parts_nil (pnl : list (string * list string)) :
  text_parts pnl = [] <-> Forall (fun nl => snd nl = []) pnl.
Proof.
  induction pnl as [|[name lines] pnl IH]; [split; auto|].
  unfold text_parts. cbn [flat_map]. fold (text_parts pnl). cbn [snd fst].
  destruct lines as [|l ls].
  - rewrite IH. split; [intros H; now constructor | intros H; now inversion H].
  - split; [discriminate|]. intros H. inversion H as [|? ? Hl]. discriminate.
Qed.

(** The plain-text part of the digest is the fallback "Changes detected."
    exactly when no award of the digest has a line to report. *)
Theorem text_body_fallback (pnl : list (string * list string)) :
  text_body pnl = "Changes detected." <-> Forall (fun nl => snd nl = []) pnl.
Proof.
  unfold text_body. rewrite <- text_parts_nil.
  destruct (text_parts_shape pnl) as [E | [a [b [rest E]]]]; rewrite E; [tauto|].
  split; [|discriminate]. intros H. exfalso.
  change (String.concat newline (a :: b :: rest))
    with (a ++ newline ++ String.concat newline (b :: rest)) in H.
  apply (f_equal list_ascii_of_string) in H. rewrite list_ascii_app in H.
  assert (Hin : In LF (list_ascii_of_string "Changes detected."))
    by (rewrite <- H; apply in_or_app; right; now left).
  assert (Hno : existsb (Ascii.eqb LF) (list_ascii_of_string "Changes detected.") = false)
    by reflexivity.
  assert (Hyes : existsb (Ascii.eqb LF) (list_ascii_of_string "Changes detected.") = true)
    by (apply existsb_exists; exists LF; split; [exact Hin | apply Ascii.eqb_refl]).
  congruence.
Qed.

(** ** What [detect_changes] reports is real *)

Lemma collect_new_sound (key_col : string) (om : list (string * row)) (nr : list row)
    (items : list (string * row)) (ne : list row) :
  (forall kv, In kv items -> row_key key_col (snd kv) = fst kv /\ NoDup (dict_keys (snd kv))) ->
  collect_new om (map canon nr) nr items = Some ne ->
  forall r, In r ne -> In r nr /\
    exists kv, In kv items /\ dict_get om (fst kv) = None /\ raw_key key_col r = fst kv.
Proof.
  revert ne. induction items as [|[k norm] items IH]; intros ne Hi H; simpl in H.
  - injection H as <-. intros r [].
  - assert (Hi' : forall kv, In kv items ->
              row_key key_col (snd kv) = fst kv /\ NoDup (dict_keys (snd kv)))
      by (intros; apply Hi; now right).
    destruct (Hi (k, norm) (or_introl eq_refl)) as [Hk Hnd]; simpl in Hk, Hnd.
    destruct (dict_get om k) as [w|] eqn:Eo.
    { intros r Hr. destruct (IH ne Hi' H r Hr) as [Hin [kv [Hkv Hrest]]].
      split; [exact Hin|]. exists kv. split; [now right | exact Hrest]. }
    destruct (list_index norm (map canon nr)) as [i|] eqn:Ei; [|discriminate].
    destruct (index_raw _ _ _ Ei) as [r0 [Er Heq]]. rewrite Er in H.
    destruct (collect_new om (map canon nr) nr items) as [rest|] eqn:Erest; [|discriminate].
    injection H as <-. intros r [<- | Hr].
    + split; [now apply nth_error_In in Er|]. exists (k, norm). split; [now left|].
      split; [exact Eo|]. simpl. unfold raw_key. rewrite <- Hk.
      apply row_key_dict_eqb; auto. apply canon_nodup.
    + destruct (IH rest Hi' eq_refl r Hr) as [Hin [kv [Hkv Hrest]]].
      split; [exact Hin|]. exists kv. split; [now right | exact Hrest].
Qed.

Lemma collect_updated_sound (key_col : string) (om : list (string * row)) (orows nr : list row)
    (items : list (string * row)) (up : list (string * row * row)) :
  map_inv key_col (map canon orows) om ->
  (forall kv, In kv items -> In (snd kv) (map canon nr) /\ row_key key_col (snd kv) = fst kv) ->
  collect_updated om (map canon orows) orows (map canon nr) nr items = Some up ->
  forall k o n, In (k, o, n) up ->
    In o orows /\ In n nr /\ raw_key key_col o = k /\ raw_key key_col n = k
    /\ dict_eqb (canon o) (canon n) = false.
Proof.
  intros [Hnd Hf]. rewrite Forall_forall in Hf.
  revert up. induction items as [|[k v] items IH]; intros up Hi H; simpl in H.
  - injection H as <-. intros ? ? ? [].
  - assert (Hi' : forall kv, In kv items ->
              In (snd kv) (map canon nr) /\ row_key key_col (snd kv) = fst kv)
      by (intros; apply Hi; now right).
    destruct (Hi (k, v) (or_introl eq_refl)) as [Hv Hk]; simpl in Hv, Hk.
    destruct (dict_get om k) as [w|] eqn:Ew; [|exact (IH up Hi' H)].
    destruct (negb (dict_eqb v w)) eqn:Evw; [|exact (IH up Hi' H)].
    destruct (list_index w (map canon orows)) as [i|] eqn:Ei; [|discriminate].
    destruct (list_index v (map canon nr)) as [j|] eqn:Ej; [|discriminate].
    destruct (index_raw _ _ _ Ei) as [orow [Eo Ho]].
    destruct (index_raw _ _ _ Ej) as [nrow [En Hn]].
    rewrite Eo, En in H.
    destruct (collect_updated om (map canon orows) orows (map canon nr) nr items)
      as [rest|] eqn:Erest; [|discriminate].
    injection H as <-. intros k' o n [Ht | Ht].
    2: exact (IH rest Hi' eq_refl k' o n Ht).
    injection Ht as <- <- <-.
    apply dict_get_some_In in Ew. destruct (Hf _ Ew) as [Hw Hwk]; simpl in Hw, Hwk.
    assert (Hndw : NoDup (dict_keys w))
      by (apply in_map_iff in Hw as [x [<- _]]; apply canon_nodup).
    assert (Hndv : NoDup (dict_keys v))
      by (apply in_map_iff in Hv as [x [<- _]]; apply canon_nodup).
    split; [now apply nth_error_In in Eo|]. split; [now apply nth_error_In in En|].
    split; [unfold raw_key; rewrite <- Hwk; apply row_key_dict_eqb; auto; apply canon_nodup|].
    split; [unfold raw_key; rewrite <- Hk; apply row_key_dict_eqb; auto; apply canon_nodup|].
    destruct (dict_eqb (canon orow) (canon nrow)) eqn:Eon; [|reflexivity]. exfalso.
    pose proof (dict_eqb_members _ _ (canon_nodup orow) Hndw Ho) as M1.
    pose proof (dict_eqb_members _ _ (canon_nodup nrow) Hndv Hn) as M2.
    pose proof (dict_eqb_members _ _ (canon_nodup orow) (canon_nodup nrow) Eon) as M3.
    assert (Hvw : dict_eqb v w = true).
    { apply dict_eqb_complete; auto. intros x. rewrite <- M1, M3, M2. tauto. }
    rewrite Hvw in Evw. discriminate.
Qed.

(** Every entry [detect_changes] reports is backed by the rows: a new entry
    is one of the new rows, and its identity key is the key of no old row;
    an updated entry [(k, old_r, new_r)] pairs an old row and a new row that
    both have the identity key [k] and whose canonical forms differ. *)
Theorem detect_changes_sound (key_col : string) (old_rows new_rows : list row)
    (ne : list row) (up : list (string * row * row)) :
  detect_changes key_col old_rows new_rows = Some (ne, up) ->
  (forall r, In r ne -> In r new_rows
     /\ forall o, In o old_rows -> raw_key key_col o <> raw_key key_col r) /\
  (forall k o n, In (k, o, n) up -> In o old_rows /\ In n new_rows
     /\ raw_key key_col o = k /\ raw_key key_col n = k
     /\ dict_eqb (canonicalize_row amount_cols_default o)
                 (canonicalize_row amount_cols_default n) = false).
Proof.
  unfold detect_changes. intros H.
  set (om := build_map key_col (map canon old_rows)) in H.
  set (nm := build_map key_col (map canon new_rows)) in H.
  destruct (collect_new om (map canon new_rows) new_rows nm) as [ne'|] eqn:En; [|discriminate].
  destruct (collect_updated om (map canon old_rows) old_rows (map canon new_rows) new_rows nm)
    as [up'|] eqn:Eu; [|discriminate].
  injection H as <- <-.
  destruct (build_map_inv key_col (map canon new_rows)) as [_ Hfn]. fold nm in Hfn.
  rewrite Forall_forall in Hfn. split.
  - intros r Hr.
    destruct (collect_new_sound key_col om new_rows nm ne') with (r := r)
      as [Hin [kv [Hkv [Hnone Hkey]]]]; auto.
    { intros kv Hkv. destruct (Hfn kv Hkv) as [Hin Hk]. split; [exact Hk|].
      apply in_map_iff in Hin as [x [<- _]]. apply canon_nodup. }
    split; [exact Hin|]. intros o Ho Heq. apply dict_get_none in Hnone. apply Hnone.
    unfold om. rewrite build_map_keys, first_occ_In, <- Hkey, <- Heq.
    rewrite map_map. apply in_map_iff. exists o. split; [reflexivity | exact Ho].
  - intros k o n Ht.
    refine (collect_updated_sound key_col om old_rows new_rows nm up'
              (build_map_inv _ _) _ Eu k o n Ht).
    intros kv Hkv. destruct (Hfn kv Hkv) as [Hin Hk]. split; assumption.
Qed.

(** ** The main flow *)

Definition touches_only {A : Type} (P : string -> Prop) (m : io A) : Prop :=
  forall s q, ~ P q -> dict_get (snd (m s)) q = dict_get s q.

Lemma touches_weaken {A : Type} (P P' : string -> Prop) (m : io A) :
  (forall q, P q -> P' q) -> touches_only P m -> touches_only P' m.
Proof. intros HP Hm s q Hq. apply Hm. intros H. exact (Hq (HP q H)). Qed.

Lemma touches_ret {A : Type} (P : string -> Prop) (a : A) : touches_only P (io_ret a).
Proof. intros s q _. reflexivity. Qed.

Lemma touches_raise {A : Type} (P : string -> Prop) (e : string) :
  touches_only P (@io_raise A e).
Proof. intros s q _. reflexivity. Qed.

Lemma touches_bind {A B : Type} (P : string -> Prop) (m : io A) (k : A -> io B) :
  touches_only P m -> (forall a, touches_only P (k a)) -> touches_only P (io_bind m k).
Proof.
  intros Hm Hk s q Hq. unfold io_bind. specialize (Hm s q Hq).
  destruct (m s) as [[a|e] s'] eqn:E; simpl in *; [|exact Hm].
  rewrite (Hk a s' q Hq). exact Hm.
Qed.

Lemma touches_open_w (p : string) : touches_only (fun q => q = p) (open_w p).
Proof.
  intros s q Hq. unfold open_w. simpl. rewrite dict_get_set.
  destruct (String.eqb_spec q p); [contradiction | reflexivity].
Qed.

Lemma touches_file_write (p t : string) : touches_only (fun q => q = p) (file_write p t).
Proof.
  intros s q Hq. unfold file_write. simpl. rewrite dict_get_set.
  destruct (String.eqb_spec q p); [contradiction | reflexivity].
Qed.

Lemma touches_writerows (p : string) (K : list string) (rows : list row) :
  touches_only (fun q => q = p) (writerows p K rows).
Proof.
  induction rows as [|r rows IH]; simpl; [apply touches_ret|].
  destruct (dict_to_list K r); [|apply touches_raise].
  apply touches_bind; [apply touches_file_write | intros _; exact IH].
Qed.

Lemma touches_file_replace (src dst : string) :
  touches_only (fun q => q = src \/ q = dst) (file_replace src dst).
Proof.
  intros s q Hq. unfold file_replace. destruct (dict_get s src); [|reflexivity]. simpl.
  rewrite dict_get_set. destruct (String.eqb_spec q dst); [tauto|].
  apply dict_get_del. tauto.
Qed.

Lemma touches_write_csv_atomic (path : string) (rows : list row) :
  touches_only (fun q => q = tmp_path path \/ q = path) (write_csv_atomic path rows).
Proof.
  unfold write_csv_atomic. destruct rows as [|r0 rest]; [apply touches_ret|].
  cbv zeta.
  assert (Ht : forall q, q = tmp_path path -> q = tmp_path path \/ q = path) by tauto.
  apply touches_bind; [exact (touches_weaken _ _ _ Ht (touches_open_w _))|]. intros _.
  apply touches_bind; [exact (touches_weaken _ _ _ Ht (touches_file_write _ _))|]. intros _.
  apply touches_bind; [exact (touches_weaken _ _ _ Ht (touches_writerows _ _ _))|]. intros _.
  apply touches_file_replace.
Qed.

Lemma read_csv_state (path : string) (s : fs) : snd (read_csv_if_exists path s) = s.
Proof.
  unfold read_csv_if_exists. destruct (dict_get s path) as [[|c t]|]; reflexivity.
Qed.

Lemma touches_read (P : string -> Prop) (path : string) : touches_only P (read_csv_if_exists path).
Proof. intros s q _. now rewrite read_csv_state. Qed.

Lemma touches_main_award (as_row : prow -> row) (name : string) (h : list string)
    (rows : list row) :
  touches_only (fun q => q = tmp_path (csv_path name) \/ q = csv_path name)
    (main_award as_row name h rows).
Proof.
  unfold main_award. cbv zeta. apply touches_bind; [apply touches_read|]. intros old.
  destruct old as [|o os]; destruct rows as [|r rs]; try apply touches_ret.
  - apply touches_bind; [apply touches_write_csv_atomic | intros _; apply touches_ret].
  - destruct (detect_changes _ _ _) as [[[|n ns] [|u us]]|]; try apply touches_raise;
      try apply touches_ret;
      (apply touches_bind; [apply touches_write_csv_atomic | intros _; apply touches_ret]).
Qed.

Definition award_files (names : list string) (q : string) : Prop :=
  exists name, In name names /\ (q = tmp_path (csv_path name) \/ q = csv_path name).

Lemma touches_main_loop (as_row : prow -> row) (scraped : list (string * (list string * list row)))
    (any : bool) (d : list (string * list string)) :
  touches_only (award_files (map fst scraped)) (main_loop as_row scraped any d).
Proof.
  revert any d. induction scraped as [|[name [h rows]] rest IH]; intros any d;
    simpl; [apply touches_ret|].
  apply touches_bind.
  - apply (touches_weaken _ _ _ (fun q Hq => ex_intro _ name (conj (or_introl eq_refl) Hq))).
    apply touches_main_award.
  - intros [lines|]; eapply touches_weaken; try apply IH;
      intros q [n [Hn Hq]]; exists n; split; auto; now right.
Qed.

Lemma touches_main_after (as_row : prow -> row) (dry_run : bool)
    (scraped : list (string * (list string * list row))) :
  touches_only (award_files (map fst scraped)) (main_after_scrape as_row dry_run scraped).
Proof.
  unfold main_after_scrape. destruct scraped as [|a rest]; [apply touches_ret|].
  apply touches_bind; [apply touches_main_loop|]. intros [any d].
  destruct (_ && _); apply touches_ret.
Qed.

Lemma csv_path_tmp_neq (n m : string) : csv_path n <> tmp_path (csv_path m).
Proof.
  unfold csv_path, tmp_path. intros H.
  apply (f_equal (fun t => rev (list_ascii_of_string t))) in H.
  rewrite !list_ascii_app, !rev_app_distr in H. simpl in H. discriminate.
Qed.

Lemma csv_path_inj (n m : string) : csv_path n = csv_path m -> n = m.
Proof.
  unfold csv_path. intros H. apply (f_equal list_ascii_of_string) in H.
  rewrite !list_ascii_app in H. apply app_inv_head, app_inv_tail in H.
  rewrite <- (string_of_list_ascii_of_string n), <- (string_of_list_ascii_of_string m).
  now rewrite H.
Qed.

Lemma detect_changes_refl (key_col : string) (rows : list row) :
  detect_changes key_col rows rows = Some ([], []).
Proof.
  unfold detect_changes.
  set (m := build_map key_col (map canon rows)).
  destruct (build_map_inv key_col (map canon rows)) as [Hnd Hf]. fold m in Hnd, Hf.
  rewrite Forall_forall in Hf.
  rewrite collect_new_all_known, collect_updated_all_same; auto.
  - intros [k v] Hkv. simpl.
    rewrite (proj2 (dict_get_In m k v Hnd) Hkv).
    destruct (Hf _ Hkv) as [Hv _]. simpl in Hv.
    apply in_map_iff in Hv as [r [<- _]]. apply dict_eqb_refl, canon_nodup.
  - intros [k v] Hkv. simpl. now rewrite (proj2 (dict_get_In m k v Hnd) Hkv).
Qed.

Lemma read_csv_snapshot (path : string) (s : fs) (rows : list row) :
  snapshot_rows rows -> dict_get s path = snapshot_text rows ->
  read_csv_if_exists path s = (Ok (map py_row rows), s).
Proof.
  destruct rows as [|r0 rest]; [intros []|].
  intros (Hr0 & Hnd & Hsame & HfK & Hf) Hget.
  assert (Hall : forall r, In r (r0 :: rest) -> dict_keys r = dict_keys r0)
    by (intros r [<- | Hr]; auto).
  replace (map py_row (r0 :: rest)) with (map (padded_row (dict_keys r0)) (r0 :: rest)).
  - apply read_csv_document; auto.
    destruct r0; [congruence|discriminate].
  - apply map_ext_in. intros r Hr. rewrite <- (Hall r Hr).
    apply padded_row_own. now rewrite (Hall r Hr).
Qed.

Lemma main_award_unchanged (as_row : prow -> row) (name : string) (h : list string)
    (rows : list row) (s : fs) :
  (forall r, as_row (py_row r) = r) -> snapshot_rows rows ->
  dict_get s (csv_path name) = snapshot_text rows ->
  main_award as_row name h rows s = (Ok None, s).
Proof.
  intros Has Hr Hs. unfold main_award. cbv zeta.
  rewrite (io_bind_ok _ _ s (map py_row rows) s) by (apply read_csv_snapshot; auto).
  destruct rows as [|r0 rest]; [destruct Hr|]. cbn [map].
  rewrite Has, map_map, (map_ext _ (fun r => r) Has), map_id.
  rewrite detect_changes_refl. reflexivity.
Qed.

Lemma main_award_first (as_row : prow -> row) (name : string) (h : list string)
    (rows : list row) (s : fs) :
  snapshot_rows rows -> dict_get s (csv_path name) = None ->
  exists s', main_award as_row name h rows s = (Ok None, s')
    /\ dict_get s' (csv_path name) = snapshot_text rows
    /\ (forall q, q <> tmp_path (csv_path name) -> q <> csv_path name ->
                  dict_get s' q = dict_get s q).
Proof.
  intros Hr Hs. destruct rows as [|r0 rest]; [destruct Hr|].
  destruct Hr as (_ & _ & Hsame & _ & _).
  assert (Hk : forall r, In r (r0 :: rest) -> forall k, In k (dict_keys r) -> In k (dict_keys r0))
    by (intros r [<- | Hr] k Hkr; auto; now rewrite <- (Hsame r Hr)).
  unfold main_award. cbv zeta.
  rewrite (io_bind_ok _ _ s [] s) by (unfold read_csv_if_exists; now rewrite Hs).
  pose proof (write_csv_atomic_state (csv_path name) r0 rest s Hk) as Hw.
  eexists. split; [rewrite (io_bind_ok _ _ s tt _ Hw); reflexivity|].
  split.
  - simpl. now rewrite dict_get_set, String.eqb_refl.
  - intros q Ht Hq. rewrite dict_get_set.
    destruct (String.eqb_spec q (csv_path name)) as [E|_]; [contradiction|].
    rewrite dict_get_del by exact Ht. rewrite dict_get_set.
    destruct (String.eqb_spec q (tmp_path (csv_path name))) as [E|_]; [contradiction|reflexivity].
Qed.

Lemma main_loop_unchanged (as_row : prow -> row) (scraped : list (string * (list string * list row)))
    (any : bool) (d : list (string * list string)) (s : fs) :
  (forall r, as_row (py_row r) = r) ->
  Forall (fun a => snapshot_rows (snd (snd a))
                   /\ dict_get s (csv_path (fst a)) = snapshot_text (snd (snd a))) scraped ->
  main_loop as_row scraped any d s = (Ok (any, d), s).
Proof.
  intros Has. induction scraped as [|[name [h rows]] rest IH]; intros Hall; [reflexivity|].
  inversion Hall as [|? ? [Hr Hs] Hrest]; subst. simpl in Hr, Hs. cbn [main_loop].
  rewrite (io_bind_ok _ _ s None s) by (now apply main_award_unchanged).
  now apply IH.
Qed.

Lemma main_loop_first (as_row : prow -> row) (scraped : list (string * (list string * list row)))
    (any : bool) (d : list (string * list string)) (s : fs) :
  NoDup (map fst scraped) ->
  Forall (fun a => snapshot_rows (snd (snd a)) /\ dict_get s (csv_path (fst a)) = None) scraped ->
  exists s', main_loop as_row scraped any d s = (Ok (any, d), s')
    /\ Forall (fun a => dict_get s' (csv_path (fst a)) = snapshot_text (snd (snd a))) scraped.
Proof.
  revert s. induction scraped as [|[name [h rows]] rest IH]; intros s Hnd Hall.
  - exists s. split; [reflexivity | constructor].
  - inversion Hall as [|? ? [Hr Hs] Hrest]; subst. simpl in Hr, Hs.
    inversion Hnd as [|? ? Hname Hnd']; subst.
    destruct (main_award_first as_row name h rows s Hr Hs) as [s1 [E1 [Hp1 Hq1]]].
    assert (Hne : forall a, In a rest -> fst a <> name)
      by (intros a Ha E; apply Hname; rewrite <- E; now apply in_map).
    assert (Hrest1 : Forall (fun a => snapshot_rows (snd (snd a))
                                      /\ dict_get s1 (csv_path (fst a)) = None) rest).
    { rewrite Forall_forall in Hrest |- *. intros a Ha. destruct (Hrest a Ha) as [Ha1 Ha2].
      split; [exact Ha1|]. rewrite Hq1; [exact Ha2 | apply csv_path_tmp_neq |].
      intros E. exact (Hne a Ha (csv_path_inj _ _ E)). }
    destruct (IH s1 Hnd' Hrest1) as [s' [E' Hp']].
    exists s'. cbn [main_loop]. rewrite (io_bind_ok _ _ s None s1 E1). split; [exact E'|].
    constructor; [|exact Hp']. simpl.
    pose proof (touches_main_loop as_row rest any d s1 (csv_path name)) as Ht.
    rewrite E' in Ht. simpl in Ht. rewrite Ht; [exact Hp1|].
    intros [n [Hn [Hq | Hq]]].
    + exact (csv_path_tmp_neq _ _ Hq).
    + apply Hname. apply csv_path_inj in Hq. now subst n.
Qed.

Lemma str_row_py (r : row) : str_row (py_row r) = r.
Proof.
  unfold str_row, py_row. rewrite map_map. simpl.
  rewrite (map_ext _ (fun kv => kv)) by (intros [k v]; reflexivity). apply map_id.
Qed.

(** An award whose scrape returned no rows: [main] neither creates nor
    overwrites its snapshot, whatever the files hold, and puts nothing in
    the digest for it. *)
Theorem main_award_no_rows (as_row : prow -> row) (name : string) (headers : list string)
    (s : fs) :
  snd (main_award as_row name headers [] s) = s
  /\ forall lines, fst (main_award as_row name headers [] s) <> Ok (Some lines).
Proof.
  unfold main_award. cbv zeta. unfold io_bind.
  pose proof (read_csv_state (csv_path name) s) as Hs.
  destruct (read_csv_if_exists (csv_path name) s) as [[[|o os]|e] s'] eqn:E;
    simpl in Hs; subst s'; simpl; split; auto; discriminate.
Qed.

Lemma main_after_first (as_row : prow -> row) (dry_run : bool)
    (scraped : list (string * (list string * list row))) (s : fs) :
  NoDup (map fst scraped) ->
  Forall (fun a => snapshot_rows (snd (snd a)) /\ dict_get s (csv_path (fst a)) = None) scraped ->
  exists s', main_after_scrape as_row dry_run scraped s = (Ok NoEmail, s')
    /\ Forall (fun a => dict_get s' (csv_path (fst a)) = snapshot_text (snd (snd a))) scraped.
Proof.
  intros Hnd Hall. unfold main_after_scrape. destruct scraped as [|a rest].
  - exists s. split; [reflexivity | constructor].
  - destruct (main_loop_first as_row (a :: rest) false [] s Hnd Hall) as [s' [E Hp]].
    exists s'. split; [|exact Hp]. rewrite (io_bind_ok _ _ s (false, []) s' E). reflexivity.
Qed.

Lemma main_after_unchanged (as_row : prow -> row) (dry_run : bool)
    (scraped : list (string * (list string * list row))) (s : fs) :
  (forall r, as_row (py_row r) = r) ->
  Forall (fun a => snapshot_rows (snd (snd a))
                   /\ dict_get s (csv_path (fst a)) = snapshot_text (snd (snd a))) scraped ->
  main_after_scrape as_row dry_run scraped s = (Ok NoEmail, s).
Proof.
  intros Has Hall. unfold main_after_scrape. destruct scraped as [|a rest]; [reflexivity|].
  rewrite (io_bind_ok _ _ s (false, []) s) by (now apply main_loop_unchanged).
  reflexivity.
Qed.

(** Once [scrape_all_sites] has returned, [main] writes only the snapshot
    files of the awards scraped ([state/<name>.csv]) and their temporary
    files: every other file keeps the contents it had after the scrape
    phase, also when [main] raises later. *)
Theorem main_touches_only_snapshots
    (scrape_all_sites : io (list (string * (list string * list row))))
    (as_row : prow -> row) (dry_run : bool)
    (scraped : list (string * (list string * list row))) (s s0 : fs) (q : string) :
  scrape_all_sites s = (Ok scraped, s0) ->
  (forall name, In name (map fst scraped) ->
     q <> csv_path name /\ q <> tmp_path (csv_path name)) ->
  dict_get (snd (main scrape_all_sites as_row dry_run s)) q = dict_get s0 q.
Proof.
  intros Hs Hq. unfold main. rewrite (io_bind_ok _ _ s scraped s0 Hs).
  apply touches_main_after. intros [n [Hn [E | E]]]; destruct (Hq n Hn); contradiction.
Qed.

(** A first run, with no snapshot yet for any scraped award when the scrape
    phase ends: [main] writes each award's rows to its snapshot and sends no
    e-mail. *)
Theorem main_first_run (scrape_all_sites : io (list (string * (list string * list row))))
    (as_row : prow -> row) (dry_run : bool)
    (scraped : list (string * (list string * list row))) (s s0 : fs) :
  scrape_all_sites s = (Ok scraped, s0) ->
  NoDup (map fst scraped) ->
  Forall (fun a => snapshot_rows (snd (snd a)) /\ dict_get s0 (csv_path (fst a)) = None) scraped ->
  exists s', main scrape_all_sites as_row dry_run s = (Ok NoEmail, s')
    /\ Forall (fun a => dict_get s' (csv_path (fst a)) = snapshot_text (snd (snd a))) scraped.
Proof.
  intros Hs Hnd Hall. unfold main. rewrite (io_bind_ok _ _ s scraped s0 Hs).
  exact (main_after_first as_row dry_run scraped s0 Hnd Hall).
Qed.

(** When, after the scrape phase, every scraped award's snapshot already
    holds the rows just scraped, [main] sends no e-mail and changes no file
    beyond what the scrape phase wrote. *)
Theorem main_unchanged (scrape_all_sites : io (list (string * (list string * list row))))
    (as_row : prow -> row) (dry_run : bool)
    (scraped : list (string * (list string * list row))) (s s0 : fs) :
  (forall r, as_row (py_row r) = r) ->
  scrape_all_sites s = (Ok scraped, s0) ->
  Forall (fun a => snapshot_rows (snd (snd a))
                   /\ dict_get s0 (csv_path (fst a)) = snapshot_text (snd (snd a))) scraped ->
  main scrape_all_sites as_row dry_run s = (Ok NoEmail, s0).
Proof.
  intros Has Hs Hall. unfold main. rewrite (io_bind_ok _ _ s scraped s0 Hs).
  now apply main_after_unchanged.
Qed.


(** * Witnesses *)

Lemma detect_changes_bootstrap_witness :
  detect_changes mn [] [[(mn, "1")]; [(mn, "2"); ("Amount", "$5")]]
  = Some ([[(mn, "1")]; [(mn, "2"); ("Amount", "$5")]], []) /\
  detect_changes mn [] [[(mn, "1"); ("Amount", "$5")]; [(mn, "1"); ("Amount", "5")]]
  = Some ([[(mn, "1"); ("Amount", "$5")]], []).
Proof.
  split.
  - apply (proj1 (proj2 (proj2 (detect_changes_bootstrap mn _)))).
    vm_compute.
    repeat (apply NoDup_cons; [intros Hin; simpl in Hin; intuition discriminate|]).
    apply NoDup_nil.
  - rewrite (proj1 (detect_changes_bootstrap mn _)). vm_compute. reflexivity.
Defined.

Lemma detect_changes_ignores_removed_witness :
  raw_key mn [(mn, "1")] <> raw_key mn [(mn, "2")] /\
  detect_changes mn [[(mn, "1")]; [(mn, "2")]] [[(mn, "1")]] = Some ([], []).
Proof.
  assert (H : raw_key mn [(mn, "1")] <> raw_key mn [(mn, "2")]) by (vm_compute; discriminate).
  split; [exact H | exact (proj1 (detect_changes_ignores_removed mn _ _ H))].
Defined.

Lemma row_key_identity_witness :
  row_key mn [("a", "x"); (mn, "")] = row_key mn [(mn, ""); ("a", "x")].
Proof.
  refine (proj1 (row_key_identity mn [("a", "x"); (mn, "")] [(mn, ""); ("a", "x")] _
                   (or_intror (perm_swap _ _ _)))).
  vm_compute.
  repeat (apply NoDup_cons; [intros Hin; simpl in Hin; intuition discriminate|]).
  apply NoDup_nil.
Defined.

Lemma detect_changes_order_witness :
  subseq (map (raw_key mn) [[(mn, "2")]])
    (first_occ (map (raw_key mn) [[(mn, "2")]; [(mn, "1"); ("Amount", "6")]])) /\
  subseq (map (fun t => fst (fst t)) [("1", [(mn, "1"); ("Amount", "5")],
                                             [(mn, "1"); ("Amount", "6")])])
    (first_occ (map (raw_key mn) [[(mn, "2")]; [(mn, "1"); ("Amount", "6")]])).
Proof.
  apply (detect_changes_order mn [[(mn, "1"); ("Amount", "5")]]
           [[(mn, "2")]; [(mn, "1"); ("Amount", "6")]]).
  reflexivity.
Defined.

Lemma write_csv_atomic_unknown_field_witness :
  exists e s', write_csv_atomic "state/X.csv" [[("a", "1")]; [("b", "2")]]
                 [("state/X.csv", "old")] = (Raise e, s') /\
    dict_get s' "state/X.csv" = Some "old".
Proof.
  destruct (write_csv_atomic_unknown_field "state/X.csv" [("a", "1")] [[("b", "2")]]
              [("state/X.csv", "old")]) as [e [s' [H1 [H2 _]]]].
  - exists [("b", "2")], "b". split; [now left|]. split; [now left|].
    vm_compute. intuition discriminate.
  - exists e, s'. split; [exact H1 | exact H2].
Defined.

Lemma write_csv_atomic_effect_witness :
  exists s', write_csv_atomic "state/X.csv" [[(mn, "1")]; [(mn, "2")]] [("log", "x")] = (Ok tt, s')
    /\ dict_get s' "state/X.csv"
       = Some (csv_line [mn] ++ csv_rows [mn] [[(mn, "1")]; [(mn, "2")]])
    /\ dict_get s' (tmp_path "state/X.csv") = None
    /\ (forall q, q <> "state/X.csv" -> q <> tmp_path "state/X.csv" ->
        dict_get s' q = dict_get [("log", "x")] q).
Proof.
  apply (write_csv_atomic_effect "state/X.csv" [(mn, "1")] [[(mn, "2")]] [("log", "x")]).
  - intros r Hr k Hk. simpl in Hr.
    destruct Hr as [<- | [<- | []]]; exact Hk.
  - repeat constructor. simpl. tauto.
Defined.

Lemma write_then_read_witness :
  exists s', write_csv_atomic "state/X.csv" [[(mn, "1"); ("Amount", "$5, net")]; [(mn, "2")]] []
             = (Ok tt, s')
    /\ read_csv_if_exists "state/X.csv" s'
       = (Ok [[(Some mn, PStr "1"); (Some "Amount", PStr "$5, net")];
              [(Some mn, PStr "2"); (Some "Amount", PStr "")]], s').
Proof.
  apply (write_then_read "state/X.csv" [(mn, "1"); ("Amount", "$5, net")] [[(mn, "2")]] []).
  - discriminate.
  - constructor; [simpl; intros [H | []]; discriminate|]. repeat constructor. simpl. tauto.
  - intros r Hr k Hk. simpl in Hr.
    destruct Hr as [<- | [<- | []]]; simpl in Hk |- *; tauto.
  - repeat constructor; unfold fits, field_limit; simpl; lia.
  - intros r Hr. simpl in Hr.
    destruct Hr as [<- | [<- | []]]; repeat constructor; unfold fits, field_limit; simpl; lia.
Defined.

Lemma write_then_read_exact_witness :
  exists s', write_csv_atomic "state/X.csv" [[(mn, "1"); ("Title", (String dq "q, r"))]; [(mn, "2"); ("Title", "")]] []
             = (Ok tt, s')
    /\ read_csv_if_exists "state/X.csv" s'
       = (Ok [py_row [(mn, "1"); ("Title", (String dq "q, r"))]; py_row [(mn, "2"); ("Title", "")]], s').
Proof.
  apply (write_then_read_exact "state/X.csv" [(mn, "1"); ("Title", (String dq "q, r"))]
           [[(mn, "2"); ("Title", "")]] []).
  - discriminate.
  - constructor; [simpl; intros [H | []]; discriminate|]. repeat constructor. simpl. tauto.
  - intros r Hr. simpl in Hr. destruct Hr as [<- | []]. reflexivity.
  - repeat constructor; unfold fits, field_limit; simpl; lia.
  - intros r Hr. simpl in Hr.
    destruct Hr as [<- | [<- | []]]; repeat constructor; unfold fits, field_limit; simpl; lia.
Defined.

Ltac solve_fits := unfold fits, field_limit; simpl; lia.

Ltac solve_nodup :=
  repeat (apply NoDup_cons; [simpl; intuition discriminate|]); apply NoDup_nil.

Ltac solve_all_fit :=
  repeat (apply Forall_cons; [solve_fits|]); apply Forall_nil.

Ltac solve_rows_fit :=
  repeat (apply Forall_cons; [solve_all_fit|]); apply Forall_nil.

Ltac solve_snapshot_rows :=
  cbn [snapshot_rows snd]; split; [discriminate|]; split;
  [solve_nodup|]; split;
  [apply Forall_forall; repeat (apply Forall_cons; [reflexivity|]); apply Forall_nil|]; split;
  [solve_all_fit|];
  apply Forall_forall; solve_rows_fit.

Ltac solve_awards_fresh :=
  repeat (apply Forall_cons; [split; [solve_snapshot_rows | reflexivity]|]); apply Forall_nil.

Lemma record_of_cell_witness :
  dict_keys (record_of ["Award"; "Amount"; "Deadline"] ["A1"; "$5"; "x"; "extra"])
  = ["Award"; "Amount"; "Deadline"]
  /\ forall i, i < 3 ->
     dict_get (record_of ["Award"; "Amount"; "Deadline"] ["A1"; "$5"; "x"; "extra"])
       (nth i ["Award"; "Amount"; "Deadline"] "") = Some (nth i ["A1"; "$5"; "x"; "extra"] "").
Proof. apply record_of_cell. solve_nodup. Defined.

Lemma scrape_snapshot_round_trip_witness :
  exists s', write_csv_atomic "state/X.csv" (build_records ["Award"; "Amount"] [["A1"; "$5"]; ["A2"]]) [] = (Ok tt, s')
    /\ read_csv_if_exists "state/X.csv" s'
       = (Ok (map py_row (build_records ["Award"; "Amount"] [["A1"; "$5"]; ["A2"]])), s').
Proof.
  apply scrape_snapshot_round_trip; [discriminate | discriminate | solve_all_fit |].
  solve_rows_fit.
Defined.

Lemma scrape_no_headers_snapshot_empty_witness :
  exists s', write_csv_atomic "state/X.csv" (build_records [] [["x"]]) [] = (Ok tt, s')
    /\ read_csv_if_exists "state/X.csv" s' = (Ok [], s').
Proof. apply scrape_no_headers_snapshot_empty. discriminate. Defined.

Lemma detect_changes_sound_witness :
  let old := [[(mn, "1"); ("Amount", "5")]; [(mn, "2"); ("Amount", "7")]] in
  let new := [[(mn, "1"); ("Amount", "6")]; [(mn, "2"); ("Amount", "7")]; [(mn, "3")]] in
  exists ne up, detect_changes mn old new = Some (ne, up)
  /\ ((forall r, In r ne -> In r new
        /\ forall o, In o old -> raw_key mn o <> raw_key mn r) /\
      (forall k o n, In (k, o, n) up -> In o old /\ In n new
        /\ raw_key mn o = k /\ raw_key mn n = k
        /\ dict_eqb (canonicalize_row amount_cols_default o)
                    (canonicalize_row amount_cols_default n) = false)).
Proof.
  cbv zeta.
  destruct (detect_changes mn _ _) as [[ne up]|] eqn:E.
  - exists ne, up. split; [reflexivity|]. exact (detect_changes_sound _ _ _ _ _ E).
  - vm_compute in E. discriminate.
Defined.

Lemma main_touches_only_snapshots_witness :
  dict_get (snd (main (fun s => (Ok [("A", (["Award"], [[(mn, "1")]]))],
                                  dict_set s "state/20250101-000000_fail.png" "png"))
                   str_row false [("state/other.csv", "x"); ("state/A.csv", "y")]))
    "state/other.csv"
  = dict_get (dict_set [("state/other.csv", "x"); ("state/A.csv", "y")]
                "state/20250101-000000_fail.png" "png") "state/other.csv".
Proof.
  apply (main_touches_only_snapshots _ str_row false [("A", (["Award"], [[(mn, "1")]]))]).
  - reflexivity.
  - intros n Hn. simpl in Hn. destruct Hn as [<- | []]. split; discriminate.
Defined.

Lemma main_first_run_witness :
  exists s', main (fun s => (Ok [("A", (["Award"; "Amount"], [[(mn, "1"); ("Amount", "$5")]; [(mn, "2"); ("Amount", "$7")]]));
       ("B", (["Award"], [[(mn, "9")]]))], s)) str_row false [] = (Ok NoEmail, s')
    /\ Forall (fun a => dict_get s' (csv_path (fst a)) = snapshot_text (snd (snd a))) [("A", (["Award"; "Amount"], [[(mn, "1"); ("Amount", "$5")]; [(mn, "2"); ("Amount", "$7")]]));
       ("B", (["Award"], [[(mn, "9")]]))].
Proof.
  apply (main_first_run _ str_row false [("A", (["Award"; "Amount"], [[(mn, "1"); ("Amount", "$5")]; [(mn, "2"); ("Amount", "$7")]]));
       ("B", (["Award"], [[(mn, "9")]]))] [] []).
  - reflexivity.
  - solve_nodup.
  - solve_awards_fresh.
Defined.

Lemma main_unchanged_witness :
  main (fun s => (Ok [("A", (["Award"; "Amount"], [[(mn, "1"); ("Amount", "$5")]; [(mn, "2"); ("Amount", "$7")]]))],
                  dict_set s "state/20250101-000000_fail.html" "<html>"))
    str_row true
    [(csv_path "A", csv_line [mn; "Amount"]
        ++ csv_rows [mn; "Amount"] [[(mn, "1"); ("Amount", "$5")]; [(mn, "2"); ("Amount", "$7")]])]
  = (Ok NoEmail,
     dict_set [(csv_path "A", csv_line [mn; "Amount"]
        ++ csv_rows [mn; "Amount"] [[(mn, "1"); ("Amount", "$5")]; [(mn, "2"); ("Amount", "$7")]])]
       "state/20250101-000000_fail.html" "<html>").
Proof.
  apply (main_unchanged _ str_row true
           [("A", (["Award"; "Amount"], [[(mn, "1"); ("Amount", "$5")]; [(mn, "2"); ("Amount", "$7")]]))]).
  - exact str_row_py.
  - reflexivity.
  - solve_awards_fresh.
Defined.

